(** * Retrieval-augmented question answering: chunking, index, generation

    A shallow embedding of the Python services
    [app/services/document_processor.py], [app/services/vector_store.py],
    [app/services/rag_pipeline.py], of the route [app/routes/query.py], of
    the delete route of [app/routes/documents.py] and of the extension
    check of [app/utils/file_handlers.py], followed by the properties
    established about them.

    Conventions of the embedding:
    - a Python [str] is a list of Unicode code points ([list N]);
    - a Python [int] is a [Z];
    - a Python [float] is an IEEE 754 binary64 value, the [spec_float] of
      the Standard Library at precision 53 and exponent bound 1024, with
      its signed zeros, infinities and NaN; arithmetic on floats rounds to
      nearest, ties to even;
    - a call that may raise returns a [result]; exceptions short-circuit
      through [bind], [try]/[except] is a match on the result;
    - the ChromaDB collection is a finite map from chunk id to entry; the
      checks ChromaDB makes on a batch before storing it are its own and
      are passed in;
    - the embedding model, the nearest-neighbour query, the generation
      backend and the clock are passed in as a record of collaborators. *)

From Stdlib Require Import ZArith QArith Qround List String Ascii Lia Lqa.
From Stdlib Require Import SpecFloat.
From Stdlib Require Import DecimalString DecimalPos DecimalZ.
From stdpp Require Import gmap.
Import ListNotations.

(** ** Python primitives *)

Module Py.

Abbreviation char := N (only parsing).
Abbreviation str := (list N) (only parsing).

(** A string literal, code point by code point. *)
Definition lit (s : string) : str :=
  List.map N_of_ascii (list_ascii_of_string s).

(** [str(n)] for an integer. *)
Definition str_of_int (n : Z) : str :=
  lit (NilZero.string_of_int (Z.to_int n)).

Inductive exn : Type :=
| ValueError (msg : str)
| IndexError (msg : str)
| KeyError (msg : str)
| ValidationError (msg : str)
| HTTPException (status_code : Z) (detail : str)
| ExternalError (msg : str).

(** [str(e)] *)
Definition str_of_exn (e : exn) : str :=
  match e with
  | ValueError m | IndexError m | ValidationError m | ExternalError m => m
  | KeyError m => lit "'" ++ m ++ lit "'"
  | HTTPException c d => str_of_int c ++ lit ": " ++ d
  end.

Inductive result (A : Type) : Type :=
| Ok (a : A)
| Raise (e : exn).
Arguments Ok {A} a.
Arguments Raise {A} e.

Definition bind {A B} (r : result A) (k : A -> result B) : result B :=
  match r with
  | Ok a => k a
  | Raise e => Raise e
  end.

(** [str.isspace] on one code point: the characters [str.strip()] removes. *)
Definition isspace (c : char) : bool :=
  ((9 <=? c) && (c <=? 13) || (28 <=? c) && (c <=? 32)
   || (c =? 133) || (c =? 160) || (c =? 5760)
   || (8192 <=? c) && (c <=? 8202)
   || (c =? 8232) || (c =? 8233) || (c =? 8239) || (c =? 8287)
   || (c =? 12288))%N.

Fixpoint lstrip (s : str) : str :=
  match s with
  | [] => []
  | c :: s' => if isspace c then lstrip s' else s
  end.

Definition rstrip (s : str) : str := rev (lstrip (rev s)).

(** [s.strip()] *)
Definition strip (s : str) : str := rstrip (lstrip s).

(** Truth value of a string: [if s:] *)
Definition truthy {A} (s : list A) : bool :=
  match s with [] => false | _ :: _ => true end.

(** Normalisation of one slice bound against a sequence of length [n]. *)
Definition slice_index (n i : Z) : Z :=
  (if i <? 0 then Z.max (i + n) 0 else Z.min i n)%Z.

(** [s[lo:hi]] *)
Definition slice {A} (s : list A) (lo hi : Z) : list A :=
  let n := Z.of_nat (length s) in
  let a := slice_index n lo in
  let b := slice_index n hi in
  firstn (Z.to_nat (b - a)) (skipn (Z.to_nat a) s).

(** The [count] values [start, start + step, ...]. *)
Fixpoint range_from (count : nat) (start step : Z) : list Z :=
  match count with
  | O => []
  | S c => start :: range_from c (start + step)%Z step
  end.

(** Number of elements of [range(start, stop, step)], [step <> 0]. *)
Definition range_length (start stop step : Z) : nat :=
  (if 0 <? step then
     if start <? stop then Z.to_nat ((stop - start - 1) / step + 1) else O
   else
     if stop <? start then Z.to_nat ((start - stop - 1) / (- step) + 1) else O)%Z.

(** [range(start, stop, step)]; a zero step raises. *)
Definition range (start stop step : Z) : result (list Z) :=
  if (step =? 0)%Z then
    Raise (ValueError (lit "range() arg 3 must not be zero"))
  else Ok (range_from (range_length start stop step) start step).

(** [s.startswith(prefix)] *)
Fixpoint startswith (s prefix : str) : bool :=
  match prefix, s with
  | [], _ => true
  | _ :: _, [] => false
  | p :: prefix', c :: s' => (c =? p)%N && startswith s' prefix'
  end.

(** [needle in hay] for strings: substring test. *)
Fixpoint contains (hay needle : str) : bool :=
  startswith hay needle
  || match hay with
     | [] => false
     | _ :: hay' => contains hay' needle
     end.

(** ["\n".join(parts)] and friends. *)
Fixpoint join (sep : str) (parts : list str) : str :=
  match parts with
  | [] => []
  | [p] => p
  | p :: rest => p ++ sep ++ join sep rest
  end.

(** [zip(a, b)] stops at the shorter sequence. *)
Fixpoint zip {A B} (a : list A) (b : list B) : list (A * B) :=
  match a, b with
  | x :: a', y :: b' => (x, y) :: zip a' b'
  | _, _ => []
  end.

(** [seq[0]] *)
Definition first {A} (l : list A) : result A :=
  match l with
  | x :: _ => Ok x
  | [] => Raise (IndexError (lit "list index out of range"))
  end.

End Py.

Import Py.

#[global] Instance result_bind : MBind result :=
  fun A B (k : A -> result B) (r : result A) => bind r k.

(** ** Python floats *)

Module Float64.

Local Open Scope Z_scope.

(** A [float] is a binary64 value; [S754_finite s m e] stands for
    [(-1)^s * m * 2^e]. *)
Abbreviation float := spec_float (only parsing).

(** The values a double can hold: a finite one has a mantissa below [2^53]
    that is normalised unless the exponent is the least one, [-1074], and
    an exponent of at most 971. *)
Definition is_double (x : float) : bool := valid_binary 53 1024 x.

(** [0.0] *)
Definition zero : float := S754_zero false.

(** [1.0], that is [2^52 * 2^-52] *)
Definition one : float := S754_finite false 4503599627370496 (-52).

(** [x - y], rounded to nearest, ties to even. *)
Definition sub (x y : float) : float := SFsub 53 1024 x y.

(** [min(a, b)] and [max(a, b)]: the first argument, unless the second is
    strictly smaller (strictly larger). *)
Definition min (a b : float) : float := if SFltb b a then b else a.
Definition max (a b : float) : float := if SFltb a b then b else a.

(** The double nearest to the fraction [k / d] of two positive integers
    (ties to even), with sign [s]: what reading a decimal literal gives,
    [of_decimal false 7 10] for [0.7]. *)
Definition of_decimal (s : bool) (k d : Z) : float :=
  let '(mz, ez, lz) := SFdiv_core_binary 53 1024 k 0 d 0 in
  binary_round_aux 53 1024 s mz ez lz.

(** The exact value [m * 2^e] of the magnitude of a finite double. *)
Definition magnitude (m : positive) (e : Z) : Q :=
  (Zpos m * 2 ^ Z.max e 0) # Z.to_pos (2 ^ Z.max (- e) 0).

(** *** Notions the proofs about rounding use *)

(** The exponent of the last place of a double whose leading bit has
    weight [2^(t-1)]. *)
Definition fexp64 (t : Z) : Z := Z.max (t - 53) (-1074).

(** The outcome of rounding, as a relation between the float returned and
    the integer [m2] of units [2 ^ e1] it stands for. *)
Definition rounds_to (s : bool) (m2 e1 : Z) (r : float) : Prop :=
  match r with
  | S754_zero s' => s' = s /\ m2 = 0
  | S754_finite s' m3 e3 =>
      s' = s /\ e1 <= e3 <= 971 /\ Zpos m3 * 2 ^ (e3 - e1) = m2
      /\ canonical_mantissa 53 1024 m3 e3 = true
  | S754_infinity s' =>
      s' = s /\ exists m3 e3, 971 < e3 /\ e1 <= e3
                              /\ Zpos m3 * 2 ^ (e3 - e1) = m2
                              /\ canonical_mantissa 53 1024 m3 e3 = true
  | S754_nan => False
  end.

(** The magnitude of a finite double in units of [2^-1074], the least
    positive double: an integer. *)
Definition scaled (m : positive) (e : Z) : Z := Zpos m * 2 ^ (e + 1074).

(** The doubles from [0.0] to [1.0]. *)
Definition unit_interval (x : float) : Prop :=
  match x with
  | S754_zero s => s = false
  | S754_finite s m e =>
      s = false /\ canonical_mantissa 53 1024 m e = true /\ e <= 971
      /\ scaled m e <= 2 ^ 1074
  | _ => False
  end.

(** The doubles from [1 + 2^-10] upwards, infinity included. *)
Definition above_one (x : float) : Prop :=
  match x with
  | S754_infinity s => s = false
  | S754_finite s m e =>
      s = false /\ canonical_mantissa 53 1024 m e = true
      /\ 2 ^ 1074 + 2 ^ 1064 <= scaled m e
  | _ => False
  end.

(** The floats with the sign bit set. *)
Definition negative (x : float) : Prop :=
  match x with
  | S754_nan => False
  | S754_zero s | S754_infinity s | S754_finite s _ _ => s = true
  end.

(** [-0.001] *)
Definition neg_milli : float := Eval cbv in of_decimal true 1 1000.

End Float64.

(** ** [DocumentProcessor] (chunking only; extraction is file I/O) *)

Module DocumentProcessor.

Record t := {
  chunk_size : Z;
  chunk_overlap : Z
}.

(** [__init__]: stores both settings, checks nothing. *)
Definition init (chunk_size chunk_overlap : Z) : result t :=
  Ok {| chunk_size := chunk_size; chunk_overlap := chunk_overlap |}.

(** One iteration of the loop body up to the [break] test: the chunks
    list after the optional [append]. *)
Definition visit (self : t) (text : str) (chunks : list str) (i : Z) : list str :=
  let chunk := slice text i (i + chunk_size self) in
  if truthy (strip chunk) then chunks ++ [strip chunk] else chunks.

(** The [for] loop over the values of the range, with its [break]. *)
Fixpoint chunk_loop (self : t) (text : str) (text_length : Z)
         (indices : list Z) (chunks : list str) : list str :=
  match indices with
  | [] => chunks
  | i :: rest =>
      let chunks' := visit self text chunks i in
      if (i + chunk_size self >=? text_length)%Z then chunks'
      else chunk_loop self text text_length rest chunks'
  end.

Definition chunk_text (self : t) (text : str) : result (list str) :=
  if negb (truthy text) then Ok []
  else
    let text_length := Z.of_nat (length text) in
    let step := (chunk_size self - chunk_overlap self)%Z in
    indices ← range 0%Z text_length step;
    Ok (chunk_loop self text text_length indices []).

(** The loop indices at which the body runs: the same loop, recording
    [i] instead of the chunk. *)
Fixpoint visited (self : t) (text_length : Z) (indices : list Z) : list Z :=
  match indices with
  | [] => []
  | i :: rest =>
      i :: if (i + chunk_size self >=? text_length)%Z then []
           else visited self text_length rest
  end.

Definition window_offsets (self : t) (text : str) : result (list Z) :=
  if negb (truthy text) then Ok []
  else
    let text_length := Z.of_nat (length text) in
    let step := (chunk_size self - chunk_overlap self)%Z in
    indices ← range 0%Z text_length step;
    Ok (visited self text_length indices).

End DocumentProcessor.

(** ** The chunking algorithm in the words of the design document *)

Module Design.

(** Sliding window from [offset]: emit the trimmed window unless it is
    empty, stop once [offset + size] reaches the end of the text, else
    advance by [step].  [None] when [fuel] runs out first. *)
Fixpoint sliding_window (fuel : nat) (text : str) (size step offset : Z)
  : option (list str) :=
  match fuel with
  | O => None
  | S fuel' =>
      let window := strip (slice text offset (offset + size)) in
      let emitted := if truthy window then [window] else [] in
      if (offset + size >=? Z.of_nat (length text))%Z then Some emitted
      else
        match sliding_window fuel' text size step (offset + step)%Z with
        | Some more => Some (emitted ++ more)
        | None => None
        end
  end.

(** [clamp(x, lo, hi)], that is [max(lo, min(x, hi))] *)
Definition clamp (x lo hi : Float64.float) : Float64.float :=
  Float64.max lo (Float64.min x hi).

End Design.

(** ** [VectorStore] over a ChromaDB collection *)

Module VectorStore.

Record Metadata := {
  document_id : str;
  filename : str;
  chunk_index : Z;
  upload_time : str;
  total_chunks : Z
}.

Record Entry := {
  embedding : list Float64.float;
  document : str;
  metadata : Metadata
}.

(** The collection: chunk id to stored entry. *)
Abbreviation Collection := (gmap (list N) Entry) (only parsing).

(** [collection.get(where={"document_id": d})['ids']] *)
Definition get_ids_where (collection : Collection) (d : str) : list str :=
  (map_to_list
     (filter (fun kv : str * Entry => document_id (metadata (snd kv)) = d)
             collection)).*1.

(** [collection.delete(ids=ids)] *)
Definition delete_ids (collection : Collection) (ids : list str) : Collection :=
  foldr delete collection ids.

(** [collection.count()] *)
Definition get_chunk_count (collection : Collection) : Z :=
  Z.of_nat (size collection).

(** [delete_document]: the returned count and the collection afterwards. *)
Definition delete_document (collection : Collection) (d : str)
  : Z * Collection :=
  let ids := get_ids_where collection d in
  if negb (truthy ids) then (0%Z, collection)
  else
    let collection' := delete_ids collection ids in
    let deleted_count := Z.of_nat (length ids) in
    (deleted_count, collection').

End VectorStore.

(** ** [RAGPipeline] *)

Module RAGPipeline.

Import VectorStore.

(** The dictionary returned by [collection.query]: one row per query
    embedding under each key; the key ['distances'] may be absent. *)
Record SearchResults := {
  documents : list (list str);
  metadatas : list (list Metadata);
  distances : option (list (list Float64.float))
}.

(** Decoding options of [client.generate]. *)
Record Options := {
  temperature : Float64.float;
  num_predict : Z
}.

(** One element of [client.list()['models']]; the key ['name'] may be absent. *)
Record ModelEntry := {
  name : option str
}.

(** The reply of [client.list()]; the key ['models'] may be absent. *)
Record ListReply := {
  models : option (list ModelEntry)
}.

(** The Ollama client: [generate] yields [response['response']] or raises,
    [list] yields the reply or raises. *)
Record Client := {
  client_generate : str -> str -> Options -> result str;
  client_list : result ListReply
}.

Record t := {
  model_name : str;
  client : Client
}.

Record Source := {
  source_document_id : str;
  source_filename : str;
  source_chunk_index : Z;
  relevance_score : Float64.float;
  content : str
}.

Record Response := {
  answer : str;
  sources : list Source;
  query : str;
  timestamp : str
}.

Definition nl : str := [10%N].
Definition dquote : str := [34%N].

(** [f"[Source {i+1}: {filename}]\n{doc}\n"] over [enumerate(zip(..))],
    counting from [i]. *)
Fixpoint context_pieces (i : Z) (pairs : list (str * Metadata)) : list str :=
  match pairs with
  | [] => []
  | (doc, md) :: rest =>
      (lit "[Source " ++ str_of_int (i + 1) ++ lit ": " ++ filename md
         ++ lit "]" ++ nl ++ doc ++ nl)
        :: context_pieces (i + 1) rest
  end.

Definition no_context : str := lit "No relevant context found.".

Definition _build_context (search_results : SearchResults) : result str :=
  match documents search_results with
  | [] => Ok no_context
  | [] :: _ => Ok no_context
  | docs :: _ =>
      mds ← first (metadatas search_results);
      Ok (join nl (context_pieces 0%Z (zip docs mds)))
  end.

Definition _build_prompt (q context : str) : str :=
  lit "You are a helpful AI assistant for an e-commerce platform. Answer the user's question based on the provided context from product documents."
  ++ nl ++ nl ++ lit "Context from documents:" ++ nl ++ context
  ++ nl ++ nl ++ lit "User Question: " ++ q
  ++ nl ++ nl ++ lit "Instructions:"
  ++ nl ++ lit "- Answer the question using ONLY the information from the context above"
  ++ nl ++ lit "- If the context doesn't contain enough information to answer, say "
  ++ dquote ++ lit "I don't have enough information in the documents to answer this question." ++ dquote
  ++ nl ++ lit "- Be concise and accurate"
  ++ nl ++ lit "- If referencing specific products or features, mention the source document"
  ++ nl ++ nl ++ lit "Answer:".

(** Round half to even, to an integer. *)
Definition round_half_even (x : Q) : Z :=
  let f := Qfloor x in
  match Qcompare (x - inject_Z f)%Q (1 # 2)%Q with
  | Lt => f
  | Gt => (f + 1)%Z
  | Eq => if Z.even f then f else (f + 1)%Z
  end.

(** [round(x, ndigits)] on a float, for the small [ndigits >= 0] at which
    CPython goes through the decimal expansion: NaN, the infinities and
    the zeros are returned as they are; the exact value of a finite [x] is
    rounded to the nearest multiple of [10^-ndigits], ties to even, and
    that decimal is read back as a double, with the sign of [x]. *)
Definition round (x : Float64.float) (ndigits : Z) : Float64.float :=
  match x with
  | S754_finite s m e =>
      match round_half_even
              (Float64.magnitude m e * inject_Z (10 ^ ndigits)) with
      | Z0 => S754_zero s
      | k => Float64.of_decimal s k (10 ^ ndigits)
      end
  | _ => x
  end.

(** [1.0 - distance if distance <= 1.0 else 0.0] *)
Definition similarity_score (distance : Float64.float) : Float64.float :=
  if SFleb distance Float64.one then Float64.sub Float64.one distance
  else Float64.zero.

(** [doc[:200] + "..." if len(doc) > 200 else doc] *)
Definition truncate (doc : str) : str :=
  if (Z.of_nat (length doc) >? 200)%Z then slice doc 0%Z 200%Z ++ lit "..."
  else doc.

Definition source_of (doc : str) (md : Metadata) (distance : Float64.float)
  : Source :=
  {| source_document_id := document_id md;
     source_filename := filename md;
     source_chunk_index := chunk_index md;
     relevance_score := round (similarity_score distance) 3%Z;
     content := truncate doc |}.

(** [search_results['distances'][0] if 'distances' in search_results
    else [0] * len(documents)]; the integer [0] of the default row is
    compared with and subtracted from a float, which converts it to
    [0.0]. *)
Definition distance_row (search_results : SearchResults) (docs : list str)
  : result (list Float64.float) :=
  match distances search_results with
  | Some rows => first rows
  | None => Ok (repeat Float64.zero (length docs))
  end.

(** The part of [generate_response] after the [try]: the sources list. *)
Definition extract_sources (search_results : SearchResults)
  : result (list Source) :=
  match documents search_results with
  | [] => Ok []
  | [] :: _ => Ok []
  | docs :: _ =>
      mds ← first (metadatas search_results);
      dists ← distance_row search_results docs;
      Ok (List.map (fun '(doc, (md, distance)) => source_of doc md distance)
                   (zip docs (zip mds dists)))
  end.

(** The shape [collection.query] gives its result for one query
    embedding: exactly one row under every key that is present. *)
Definition one_row_each (search_results : SearchResults) : bool :=
  match documents search_results, metadatas search_results,
        distances search_results with
  | [_], [_], (None | Some [_]) => true
  | _, _, _ => false
  end.

Definition generate_options : Options :=
  {| temperature := Float64.of_decimal false 7 10; num_predict := 512%Z |}.

(** [generate_response]; [now] is [datetime.now().isoformat()]. *)
Definition generate_response (self : t) (now : str) (q : str)
           (search_results : SearchResults) : result Response :=
  context ← _build_context search_results;
  let prompt := _build_prompt q context in
  let answer :=
    match client_generate (client self) (model_name self) prompt
                          generate_options with
    | Ok response => strip response
    | Raise e => lit "Error generating response: " ++ str_of_exn e
    end in
  sources ← extract_sources search_results;
  Ok {| answer := answer; sources := sources; query := q; timestamp := now |}.

(** [model['name']] *)
Definition entry_name (m : ModelEntry) : result str :=
  match name m with
  | Some n => Ok n
  | None => Raise (KeyError (lit "name"))
  end.

(** [[model['name'] for model in models.get('models', [])]] *)
Fixpoint model_names (entries : list ModelEntry) : result (list str) :=
  match entries with
  | [] => Ok []
  | m :: rest =>
      n ← entry_name m;
      ns ← model_names rest;
      Ok (n :: ns)
  end.

(** The [any(...)] over the listed names. *)
Definition model_available (self : t) (names : list str) : bool :=
  existsb (fun n => contains n (model_name self)
                    || startswith n (model_name self)) names.

Definition check_ollama_available (self : t) : bool :=
  match
    (reply ← client_list (client self);
     names ← model_names (default [] (models reply));
     Ok (model_available self names))
  with
  | Ok b => b
  | Raise _ => false
  end.

End RAGPipeline.

(** ** The query route *)

Module QueryRoute.

Import VectorStore RAGPipeline.

Record QueryRequest := {
  request_query : str;
  top_k : option Z
}.

(** The services the route calls besides the pipeline: the embedding
    model, the nearest-neighbour query of the collection, the clock and
    the configured default for [top_k]. *)
Record Services := {
  generate_embedding : str -> result (list Float64.float);
  search : Collection -> list Float64.float -> Z -> result SearchResults;
  now : str;
  top_k_results : Z
}.

(** Construction of the [QueryResponse] model: the only constraint a well-typed
    response can violate is the range of [relevance_score], [ge=0.0] and
    [le=1.0], which NaN fails as well. *)
Definition validate_response (r : Response) : result Response :=
  if forallb (fun s => SFleb Float64.zero (relevance_score s)
                       && SFleb (relevance_score s) Float64.one) (sources r)
  then Ok r
  else Raise (ValidationError (lit "relevance_score out of range")).

Definition no_documents_detail : str :=
  lit "No documents have been indexed yet. Please upload documents first.".

(** The body of the [try] block. *)
Definition query_body (services : Services) (rag : RAGPipeline.t)
           (collection : Collection) (request : QueryRequest)
  : result Response :=
  if (get_chunk_count collection =? 0)%Z then
    Raise (HTTPException 400%Z no_documents_detail)
  else
    query_embedding ← generate_embedding services (request_query request);
    let k := match top_k request with
             | Some k => if (k =? 0)%Z then top_k_results services else k
             | None => top_k_results services
             end in
    search_results ← search services collection query_embedding k;
    response_data ← generate_response rag (now services)
                      (request_query request) search_results;
    validate_response response_data.

(** [query_documents]: [HTTPException] passes through, anything else
    becomes a 500. *)
Definition query_documents (services : Services) (rag : RAGPipeline.t)
           (collection : Collection) (request : QueryRequest)
  : result Response :=
  match query_body services rag collection request with
  | Ok r => Ok r
  | Raise (HTTPException c d) => Raise (HTTPException c d)
  | Raise e =>
      Raise (HTTPException 500%Z (lit "Failed to process query: " ++ str_of_exn e))
  end.

End QueryRoute.

(** ** [DocumentProcessor]: extraction and [process_document] *)

Module Extraction.

Import DocumentProcessor.

(** What extraction reads through the standard library and pypdf:
    [str.lower], [os.path.splitext], the texts of the pages of
    [PdfReader(path)] and the content of a UTF-8 text file.  The two
    readers raise when the file cannot be opened or decoded. *)
Record Files := {
  lower : str -> str;
  splitext : str -> str * str;
  pdf_pages : str -> result (list str);
  read_text : str -> result str
}.

(** The text accumulated over [reader.pages], starting from the empty
    string: each page's text followed by a newline. *)
Definition pages_text (pages : list str) : str :=
  fold_left (fun text page => text ++ page ++ [10%N]) pages [].

Definition _extract_from_pdf (files : Files) (file_path : str) : result str :=
  match pdf_pages files file_path with
  | Ok pages => Ok (strip (pages_text pages))
  | Raise e =>
      Raise (ValueError (lit "Failed to extract text from PDF: " ++ str_of_exn e))
  end.

Definition _extract_from_text (files : Files) (file_path : str) : result str :=
  match read_text files file_path with
  | Ok content => Ok (strip content)
  | Raise e =>
      Raise (ValueError (lit "Failed to read text file: " ++ str_of_exn e))
  end.

Definition extract_text (files : Files) (file_path : str) : result str :=
  let ext := snd (splitext files (lower files file_path)) in
  if bool_decide (ext = lit ".pdf") then _extract_from_pdf files file_path
  else if bool_decide (ext ∈ [lit ".txt"; lit ".md"]) then
    _extract_from_text files file_path
  else Raise (ValueError (lit "Unsupported file format: " ++ ext)).

(** [ALLOWED_EXTENSIONS] of [app/utils/file_handlers.py] *)
Definition ALLOWED_EXTENSIONS : list str := [lit ".txt"; lit ".md"; lit ".pdf"].

Definition validate_file_extension (files : Files) (filename : str) : bool :=
  let ext := snd (splitext files (lower files filename)) in
  bool_decide (ext ∈ ALLOWED_EXTENSIONS).

(** The metadata dictionary of [process_document]. *)
Record DocumentMetadata := {
  document_id : str;
  filename : str;
  chunk_count : Z;
  upload_time : str;
  file_path : str
}.

(** [process_document]; [now] is [datetime.now().isoformat()]. *)
Definition process_document (self : DocumentProcessor.t) (files : Files)
           (now : str) (path doc_id name : str)
  : result (list str * DocumentMetadata) :=
  text ← extract_text files path;
  chunks ← chunk_text self text;
  Ok (chunks,
      {| document_id := doc_id; filename := name;
         chunk_count := Z.of_nat (length chunks);
         upload_time := now; file_path := path |}).

End Extraction.

(** ** [VectorStore]: insertion and enumeration *)

Module Index.

Import VectorStore.

(** [f"{document_id}_chunk_{i}"] *)
Definition chunk_id (doc_id : str) (i : Z) : str :=
  doc_id ++ lit "_chunk_" ++ str_of_int i.

Definition chunk_metadata (doc_id name time : str) (n i : Z) : Metadata :=
  {| document_id := doc_id; filename := name; chunk_index := i;
     upload_time := time; total_chunks := n |}.

(** The records a call of [collection.add] carries, field by field. *)
Definition records (ids : list str) (embeddings : list (list Float64.float))
           (documents : list str) (metadatas : list Metadata)
  : list (str * Entry) :=
  List.map (fun '(id, (e, (d, m))) =>
              (id, {| embedding := e; document := d; metadata := m |}))
           (zip ids (zip embeddings (zip documents metadatas))).

(** What [collection.add] checks before it stores anything: that the
    fields have equal lengths, that no id is repeated within the call,
    that every vector is non-empty and of the dimension of the collection,
    that the batch is not too large, and whatever else the installed
    ChromaDB checks.  Given the collection and the four fields, the checks
    pass or name the exception to raise. *)
Definition AddChecks : Type :=
  gmap (list N) Entry -> list str -> list (list Float64.float) -> list str
  -> list Metadata -> result unit.

(** [collection.add(ids=, embeddings=, documents=, metadatas=)]: raises
    what the checks raise; once they pass, the records are stored, a
    record whose id is already stored being ignored. *)
Definition collection_add (checks : AddChecks)
           (collection : gmap (list N) Entry)
           (ids : list str) (embeddings : list (list Float64.float))
           (documents : list str) (metadatas : list Metadata)
  : result (gmap (list N) Entry) :=
  match checks collection ids embeddings documents metadatas with
  | Raise e => Raise e
  | Ok _ =>
      Ok (collection ∪ list_to_map (records ids embeddings documents metadatas))
  end.

(** [range(len(chunks))] *)
Definition indices (chunks : list str) : list Z :=
  range_from (length chunks) 0 1.

Definition add_documents (checks : AddChecks)
           (collection : gmap (list N) Entry)
           (chunks : list str) (embeddings : list (list Float64.float))
           (doc_id name time : str) : result (gmap (list N) Entry) :=
  if negb (truthy chunks) || negb (truthy embeddings) then Ok collection
  else
    let chunk_ids := List.map (chunk_id doc_id) (indices chunks) in
    let metadatas :=
      List.map (chunk_metadata doc_id name time (Z.of_nat (length chunks)))
               (indices chunks) in
    collection_add checks collection chunk_ids embeddings chunks metadatas.

(** One element of the list [list_documents] returns. *)
Record DocumentInfo := {
  info_document_id : str;
  info_filename : str;
  info_upload_time : str;
  info_chunk_count : Z
}.

(** [collection.get()['metadatas']] *)
Definition all_metadatas (collection : gmap (list N) Entry) : list Metadata :=
  List.map (fun kv : str * Entry => metadata (snd kv)) (map_to_list collection).

(** The dictionary built from one chunk's metadata; every stored
    metadata has the key ['total_chunks'], so the default 0 of
    [metadata.get('total_chunks', 0)] is never taken. *)
Definition info_of (md : Metadata) : DocumentInfo :=
  {| info_document_id := document_id md;
     info_filename := filename md;
     info_upload_time := upload_time md;
     info_chunk_count := total_chunks md |}.

(** The grouping loop: [documents] is the dictionary built so far, in
    insertion order; a document id already present is left alone. *)
Fixpoint group (mds : list Metadata) (documents : list (str * DocumentInfo))
  : list (str * DocumentInfo) :=
  match mds with
  | [] => documents
  | md :: rest =>
      if bool_decide (document_id md ∈ List.map fst documents)
      then group rest documents
      else group rest (documents ++ [(document_id md, info_of md)])
  end.

Definition list_documents (collection : gmap (list N) Entry)
  : list DocumentInfo :=
  if negb (truthy (all_metadatas collection)) then []
  else List.map snd (group (all_metadatas collection) []).

Definition get_document_count (collection : gmap (list N) Entry) : Z :=
  Z.of_nat (length (list_documents collection)).

End Index.

(** ** The documents route: deletion *)

Module DocumentsRoute.

Import VectorStore.

Record DeleteDocumentResponse := {
  response_document_id : str;
  message : str;
  success : bool
}.

(** The route [DELETE /api/documents/{document_id}]: its outcome and the
    collection afterwards. *)
Definition delete_document (collection : gmap (list N) Entry) (doc_id : str)
  : result DeleteDocumentResponse * gmap (list N) Entry :=
  let '(deleted_count, collection') :=
    VectorStore.delete_document collection doc_id in
  if (deleted_count =? 0)%Z then
    (Raise (HTTPException 404
              (lit "Document with ID " ++ doc_id ++ lit " not found")),
     collection')
  else
    (Ok {| response_document_id := doc_id;
           message := lit "Successfully deleted document and "
                      ++ str_of_int deleted_count ++ lit " chunks";
           success := true |},
     collection').

End DocumentsRoute.

(** ** Sample data *)

Module Sample.

Import VectorStore RAGPipeline QueryRoute.

Definition metadata_of (d : str) (i n : Z) : Metadata :=
  {| document_id := d; filename := d ++ lit ".txt"; chunk_index := i;
     upload_time := lit "2024-01-01T00:00:00"; total_chunks := n |}.

Definition entry_of (d text : str) (i n : Z) : Entry :=
  {| embedding := [Float64.one; Float64.zero]; document := text;
     metadata := metadata_of d i n |}.

(** Two documents: [D1] with two chunks, [D2] with one. *)
Definition collection : gmap (list N) Entry :=
  <[lit "D1_chunk_0" := entry_of (lit "D1") (lit "A. B") 0 2]>
  (<[lit "D1_chunk_1" := entry_of (lit "D1") (lit "B. C") 1 2]>
   {[lit "D2_chunk_0" := entry_of (lit "D2") (lit "C.") 0 1]}).

Definition results : SearchResults :=
  {| documents := [[lit "A. B"; lit "C."]];
     metadatas := [[metadata_of (lit "D1") 0 2; metadata_of (lit "D2") 0 1]];
     distances := Some [[Float64.of_decimal false 1 4;
                         Float64.of_decimal false 3 2]] |}.

(** A backend that is down. *)
Definition client_down : Client :=
  {| client_generate := fun _ _ _ => Raise (ExternalError (lit "connection refused"));
     client_list := Raise (ExternalError (lit "connection refused")) |}.

(** A backend that answers and lists one model. *)
Definition client_up : Client :=
  {| client_generate := fun _ _ _ => Ok (lit " It is in stock. ");
     client_list := Ok {| models := Some [{| name := Some (lit "codellama:7b") |}] |} |}.

Definition pipeline_down : RAGPipeline.t :=
  {| model_name := lit "llama3.2"; client := client_down |}.

Definition pipeline_up : RAGPipeline.t :=
  {| model_name := lit "llama"; client := client_up |}.

Definition services : Services :=
  {| generate_embedding := fun _ => Ok [Float64.one; Float64.zero];
     search := fun _ _ _ => Ok {| documents := [[]]; metadatas := [[]];
                                  distances := Some [[]] |};
     now := lit "2024-01-01T00:00:00";
     top_k_results := 3 |}.

Definition request : QueryRequest :=
  {| request_query := lit "Is it in stock?"; top_k := Some 3%Z |}.

(** Stand-in for the checks of [collection.add] on a collection of
    dimension 2: fields of equal length, distinct ids, vectors of two
    components. *)
Definition add_checks : Index.AddChecks :=
  fun _ ids embeddings documents metadatas =>
    if negb ((length embeddings =? length ids)%nat
             && (length documents =? length ids)%nat
             && (length metadatas =? length ids)%nat)
    then Raise (ValueError (lit "Unequal lengths for fields"))
    else if negb (bool_decide (NoDup ids))
    then Raise (ValueError (lit "Expected IDs to be unique"))
    else if negb (forallb (fun e => (length e =? 2)%nat) embeddings)
    then Raise (ValueError (lit "Embedding dimension does not match collection dimensionality"))
    else Ok tt.

End Sample.

Module SampleFiles.

Import Extraction.

(** Stand-ins: paths are taken as already lower-case, the extension is the
    last four characters, and every file holds the same text. *)
Definition files : Files :=
  {| lower := fun p => p;
     splitext := fun p =>
       let n := Z.of_nat (length p) in (slice p 0 (n - 4), slice p (n - 4) n);
     pdf_pages := fun _ => Ok [lit " Page one. "; lit "Page two."];
     read_text := fun _ => Ok (lit "  A. B. C.  ") |}.

End SampleFiles.

(** * Properties *)

(** ** Strings: trimming and slicing *)

Section Trimming.

Lemma lstrip_suffix (s : str) : exists p, s = p ++ lstrip s.
Proof.
  induction s as [|c s [p IH]]; simpl.
  - exists []; reflexivity.
  - destruct (isspace c).
    + exists (c :: p). simpl. congruence.
    + exists []. reflexivity.
Qed.

Lemma lstrip_head (s : str) c : head (lstrip s) = Some c -> isspace c = false.
Proof.
  induction s as [|a s IH]; simpl; [discriminate|].
  destruct (isspace a) eqn:E; [exact IH|].
  simpl. intros [= <-]. exact E.
Qed.

Lemma rstrip_prefix (s : str) : exists q, s = rstrip s ++ q.
Proof.
  unfold rstrip. destruct (lstrip_suffix (rev s)) as [p Hp].
  exists (rev p). rewrite <- rev_app_distr, <- Hp. symmetry. apply rev_involutive.
Qed.

Lemma rstrip_last (s : str) c : last (rstrip s) = Some c -> isspace c = false.
Proof.
  unfold rstrip. intros H. apply (lstrip_head (rev s)).
  destruct (lstrip (rev s)) as [|a l]; [discriminate|].
  simpl in H. rewrite last_snoc in H. exact H.
Qed.

Lemma strip_head (s : str) c : head (strip s) = Some c -> isspace c = false.
Proof.
  unfold strip. intros H.
  destruct (rstrip_prefix (lstrip s)) as [q Hq].
  apply (lstrip_head s). rewrite Hq.
  destruct (rstrip (lstrip s)); [discriminate | exact H].
Qed.

Lemma strip_last (s : str) c : last (strip s) = Some c -> isspace c = false.
Proof. apply rstrip_last. Qed.

Lemma length_strip_le (s : str) : (length (strip s) <= length s)%nat.
Proof.
  unfold strip.
  destruct (rstrip_prefix (lstrip s)) as [q Hq].
  destruct (lstrip_suffix s) as [p Hp].
  rewrite Hp at 2. rewrite Hq at 2. rewrite !length_app. lia.
Qed.

Lemma strip_nil : strip [] = [].
Proof. reflexivity. Qed.

Lemma slice_nil {A} (lo hi : Z) : slice (@nil A) lo hi = [].
Proof. unfold slice. rewrite skipn_nil. apply firstn_nil. Qed.

Lemma length_slice_le {A} (s : list A) (lo size : Z) :
  (0 <= lo)%Z -> (0 <= size)%Z ->
  (Z.of_nat (length (slice s lo (lo + size))) <= size)%Z.
Proof.
  intros Hlo Hsz. unfold slice, slice_index.
  rewrite length_take.
  destruct (Z.ltb_spec lo 0); [lia|].
  destruct (Z.ltb_spec (lo + size) 0); lia.
Qed.

End Trimming.

(** ** [range] *)

Section Ranges.

Lemma range_length_forward (n step : Z) :
  (0 < n)%Z -> (0 < step)%Z ->
  (1 <= range_length 0 n step)%nat
  /\ (n <= Z.of_nat (range_length 0 n step) * step)%Z
  /\ (range_length 0 n step <= Z.to_nat n)%nat.
Proof.
  intros Hn Hs. unfold range_length.
  destruct (Z.ltb_spec 0 step); [|lia].
  destruct (Z.ltb_spec 0 n); [|lia].
  replace (n - 0 - 1)%Z with (n - 1)%Z by lia.
  assert (H1 : (0 <= (n - 1) / step)%Z) by (apply Z.div_pos; lia).
  assert (H2 : (n - 1 < step * Z.succ ((n - 1) / step))%Z)
    by (apply Z.mul_succ_div_gt; lia).
  assert (H3 : ((n - 1) / step <= n - 1)%Z)
    by (apply Z.div_le_upper_bound; nia).
  repeat split; lia.
Qed.

Lemma range_backward_empty (n step : Z) :
  (0 <= n)%Z -> (step < 0)%Z -> range 0 n step = Ok [].
Proof.
  intros Hn Hs. unfold range, range_length.
  destruct (Z.eqb_spec step 0); [lia|].
  destruct (Z.ltb_spec 0 step); [lia|].
  destruct (Z.ltb_spec n 0); [lia|]. reflexivity.
Qed.

Lemma range_from_ge (count : nat) (start step : Z) i :
  (0 <= step)%Z -> In i (range_from count start step) -> (start <= i)%Z.
Proof.
  intros Hs. revert start. induction count as [|c IH]; simpl; intros start; [tauto|].
  intros [<-|H]; [lia|]. apply IH in H. lia.
Qed.

End Ranges.

(** ** The chunker *)

Section Chunker.

Import DocumentProcessor.

Variable self : DocumentProcessor.t.

Lemma visit_app (text : str) (chunks : list str) (i : Z) :
  visit self text chunks i = chunks ++ visit self text [] i.
Proof.
  unfold visit. destruct (truthy _); simpl; [reflexivity|].
  symmetry; apply app_nil_r.
Qed.

(** The loop appends, in order, what the body emits at each visited index. *)
Lemma chunk_loop_visited (text : str) (n : Z) (indices : list Z) :
  forall chunks,
    chunk_loop self text n indices chunks
    = chunks ++ flat_map (visit self text []) (visited self n indices).
Proof.
  induction indices as [|i rest IH]; intros chunks; simpl.
  - symmetry; apply app_nil_r.
  - destruct (i + chunk_size self >=? n)%Z; simpl.
    + rewrite app_nil_r. apply visit_app.
    + rewrite IH, (visit_app text chunks i). symmetry; apply app_assoc.
Qed.

Lemma chunk_text_window_offsets (text : str) :
  chunk_text self text
  = (offsets ← window_offsets self text;
     Ok (flat_map (visit self text []) offsets)).
Proof.
  unfold chunk_text, window_offsets.
  destruct (negb (truthy text)); [reflexivity|].
  destruct (range _ _ _) as [indices|e]; [|reflexivity].
  cbn. f_equal. apply chunk_loop_visited.
Qed.

(** Every emitted chunk is a trimmed, non-empty window. *)
Lemma visit_emits (text : str) (i : Z) (c : str) :
  In c (visit self text [] i) ->
  c = strip (slice text i (i + chunk_size self)) /\ c <> [].
Proof.
  unfold visit. destruct (truthy _) eqn:E; simpl; [|tauto].
  intros [<-|[]]. split; [reflexivity|].
  destruct (strip _); [discriminate | congruence].
Qed.

Lemma visited_incl (n : Z) (indices : list Z) i :
  In i (visited self n indices) -> In i indices.
Proof.
  induction indices as [|j rest IH]; simpl; [tauto|].
  intros [->|H]; [tauto|].
  destruct (j + chunk_size self >=? n)%Z; [destruct H|]. right; auto.
Qed.

(** The windows visited over a forward range that reaches the end of the
    text leave no position uncovered. *)
Lemma visited_cover (n step : Z) :
  (0 < step <= chunk_size self)%Z ->
  forall (count : nat) (start p : Z),
    (start <= p < n)%Z ->
    (p < start + Z.of_nat count * step)%Z ->
    exists i, In i (visited self n (range_from count start step))
              /\ (i <= p < i + chunk_size self)%Z.
Proof.
  intros Hstep. induction count as [|c IH]; intros start p Hp Hspan; [lia|].
  simpl. destruct (Z.geb_spec (start + chunk_size self) n) as [Hend|Hmore].
  - exists start. split; [left; reflexivity | lia].
  - destruct (Z.lt_ge_cases p (start + chunk_size self)) as [Hin|Hout].
    + exists start. split; [left; reflexivity | lia].
    + destruct (IH (start + step)%Z p) as (i & Hi & Hr); [lia | nia |].
      exists i. split; [right; exact Hi | exact Hr].
Qed.

(** On such a range the loop and the sliding window of the design agree. *)
Lemma sliding_window_visited (text : str) (step : Z) :
  (0 < step <= chunk_size self)%Z ->
  forall (count fuel : nat) (start : Z),
    (1 <= count <= fuel)%nat ->
    (Z.of_nat (length text) <= start + Z.of_nat count * step)%Z ->
    Design.sliding_window fuel text (chunk_size self) step start
    = Some (flat_map (visit self text [])
              (visited self (Z.of_nat (length text))
                       (range_from count start step))).
Proof.
  intros Hstep. induction count as [|c IH]; intros fuel start Hc Hspan; [lia|].
  destruct fuel as [|fuel']; [lia|]. simpl.
  destruct (Z.geb_spec (start + chunk_size self) (Z.of_nat (length text)))
    as [Hend|Hmore]; simpl.
  - rewrite app_nil_r. unfold visit.
    destruct (truthy _); reflexivity.
  - rewrite (IH fuel' (start + step)%Z) by nia.
    unfold visit at 2. destruct (truthy _); reflexivity.
Qed.

End Chunker.

Section ChunkerClaims.

Import DocumentProcessor.

(** C2 (as stated, refuted): the constructor accepts [size = 4],
    [overlap = 4]; no error is raised at construction time. *)
Lemma init_accepts_overlap_equal_size :
  (4 >= 4)%Z /\ ~ exists e, DocumentProcessor.init 4 4 = Raise e.
Proof.
  split; [lia|]. intros [e H]. discriminate H.
Qed.

(** C2 (amended): constructing the chunker never raises; every pair
    [(size, overlap)], also with [overlap >= size], is stored unchanged. *)
Theorem init_stores_any_configuration (size overlap : Z) :
  DocumentProcessor.init size overlap
  = Ok {| chunk_size := size; chunk_overlap := overlap |}.
Proof. reflexivity. Qed.

(** C3: for a valid configuration ([size > 0], [0 <= overlap < size])
    [chunk_text] returns exactly what the sliding-window algorithm of the
    design computes from offset 0 with stride [size - overlap] (given fuel
    beyond the length of the text), the empty list on empty input, and
    ["A. B"; "B. C"; "C."] on "A. B. C." with [size = 4], [overlap = 1]. *)
Theorem chunk_text_is_sliding_window (self : DocumentProcessor.t) (text : str) :
  (0 < chunk_size self)%Z ->
  (0 <= chunk_overlap self < chunk_size self)%Z ->
  exists chunks,
    chunk_text self text = Ok chunks
    /\ (forall fuel, (length text < fuel)%nat ->
          Design.sliding_window fuel text (chunk_size self)
            (chunk_size self - chunk_overlap self) 0 = Some chunks)
    /\ (text = [] -> chunks = [])
    /\ chunk_text {| chunk_size := 4; chunk_overlap := 1 |} (lit "A. B. C.")
       = Ok [lit "A. B"; lit "B. C"; lit "C."].
Proof.
  intros Hsize Hov.
  destruct text as [|c text'].
  - exists []. split; [reflexivity|].
    split; [|split; [reflexivity | vm_compute; reflexivity]].
    intros [|fuel'] Hf; [simpl in Hf; lia|].
    cbn [Design.sliding_window]. rewrite slice_nil, strip_nil.
    cbn [truthy length].
    destruct (Z.geb_spec (0 + chunk_size self) (Z.of_nat 0));
      [reflexivity | lia].
  - set (text := c :: text').
    set (n := Z.of_nat (length text)).
    set (step := (chunk_size self - chunk_overlap self)%Z).
    assert (Hn : (0 < n)%Z) by (subst n text; simpl; lia).
    destruct (range_length_forward n step) as (Hc1 & Hc2 & Hc3); [lia | subst step; lia |].
    rewrite chunk_text_window_offsets. unfold window_offsets.
    change (negb (truthy text)) with false. cbv iota.
    fold n step. unfold range.
    destruct (Z.eqb_spec step 0); [subst step; lia|]. cbn.
    eexists. split; [reflexivity|].
    split; [|split; [discriminate | vm_compute; reflexivity]].
    intros fuel Hf.
    pose proof (eq_refl : length text = S (length text')) as Hlen.
    apply sliding_window_visited; subst step n; lia.
Qed.

Lemma chunk_text_is_sliding_window_witness :
  exists chunks,
    chunk_text {| chunk_size := 5; chunk_overlap := 2 |} (lit "  hello  world ")
    = Ok chunks
    /\ (forall fuel, (length (lit "  hello  world ") < fuel)%nat ->
          Design.sliding_window fuel (lit "  hello  world ") 5 (5 - 2) 0
          = Some chunks)
    /\ (lit "  hello  world " = [] -> chunks = [])
    /\ chunk_text {| chunk_size := 4; chunk_overlap := 1 |} (lit "A. B. C.")
       = Ok [lit "A. B"; lit "B. C"; lit "C."].
Proof.
  apply (chunk_text_is_sliding_window
           {| chunk_size := 5; chunk_overlap := 2 |} (lit "  hello  world "));
    simpl; lia.
Defined.

(** C7: for a non-empty text and a valid configuration, the windows
    [[offset, offset + size)] the loop visits (emitted or skipped) cover
    every character position of the text. *)
Theorem window_offsets_cover (self : DocumentProcessor.t) (text : str) :
  text <> [] ->
  (0 < chunk_size self)%Z ->
  (0 <= chunk_overlap self < chunk_size self)%Z ->
  exists offsets,
    window_offsets self text = Ok offsets
    /\ chunk_text self text = Ok (flat_map (visit self text []) offsets)
    /\ forall p, (0 <= p < Z.of_nat (length text))%Z ->
         exists offset, In offset offsets
                        /\ (offset <= p < offset + chunk_size self)%Z.
Proof.
  intros Hne Hsize Hov.
  set (n := Z.of_nat (length text)).
  set (step := (chunk_size self - chunk_overlap self)%Z).
  assert (Hn : (0 < n)%Z) by (subst n; destruct text; [congruence | simpl; lia]).
  destruct (range_length_forward n step) as (Hc1 & Hc2 & Hc3); [lia | subst step; lia |].
  rewrite chunk_text_window_offsets. unfold window_offsets.
  destruct text as [|c text']; [congruence|].
  change (negb (truthy (c :: text'))) with false. cbv iota.
  fold n step. unfold range.
  destruct (Z.eqb_spec step 0); [subst step; lia|]. cbn.
  eexists. split; [reflexivity|]. split; [reflexivity|].
  intros p Hp. apply visited_cover; subst step; lia.
Qed.

Lemma window_offsets_cover_witness :
  exists offsets,
    window_offsets {| chunk_size := 4; chunk_overlap := 1 |} (lit "A. B. C.")
    = Ok offsets
    /\ chunk_text {| chunk_size := 4; chunk_overlap := 1 |} (lit "A. B. C.")
       = Ok (flat_map (visit {| chunk_size := 4; chunk_overlap := 1 |}
                             (lit "A. B. C.") []) offsets)
    /\ forall p, (0 <= p < Z.of_nat (length (lit "A. B. C.")))%Z ->
         exists offset, In offset offsets /\ (offset <= p < offset + 4)%Z.
Proof.
  apply (window_offsets_cover
           {| chunk_size := 4; chunk_overlap := 1 |} (lit "A. B. C."));
    [discriminate | simpl; lia | simpl; lia].
Defined.

End ChunkerClaims.

Section ChunkerShape.

Import DocumentProcessor.

Lemma window_offsets_total (self : DocumentProcessor.t) (text : str) :
  (chunk_size self - chunk_overlap self <> 0)%Z ->
  exists offsets, window_offsets self text = Ok offsets.
Proof.
  intros Hstep. unfold window_offsets, range.
  destruct (negb (truthy text)); [eauto|].
  destruct (Z.eqb_spec (chunk_size self - chunk_overlap self) 0); [lia|].
  cbn. eauto.
Qed.

Lemma window_offsets_nonneg (self : DocumentProcessor.t) (text : str) offsets :
  (0 <= chunk_size self - chunk_overlap self)%Z ->
  window_offsets self text = Ok offsets ->
  forall i, In i offsets -> (0 <= i)%Z.
Proof.
  intros Hstep. unfold window_offsets, range.
  destruct (negb (truthy text)); [intros [= <-] i []|].
  destruct (Z.eqb _ 0); cbn; [discriminate|].
  intros [= <-] i Hi. apply visited_incl in Hi.
  apply range_from_ge in Hi; lia.
Qed.

(** C9: with [overlap > size] the stride is negative and [chunk_text]
    returns the empty list for every text; with [overlap = size] the stride
    is zero and [chunk_text] raises for every non-empty text; so with
    [overlap >= size] no call ever returns a chunk. *)
Theorem chunk_text_invalid_overlap (self : DocumentProcessor.t) :
  ((chunk_size self < chunk_overlap self)%Z ->
     forall text, chunk_text self text = Ok [])
  /\ (chunk_overlap self = chunk_size self ->
        forall text, text <> [] ->
          chunk_text self text
          = Raise (ValueError (lit "range() arg 3 must not be zero")))
  /\ ((chunk_size self <= chunk_overlap self)%Z ->
        forall text chunks, chunk_text self text = Ok chunks -> chunks = []).
Proof.
  assert (Hneg : (chunk_size self < chunk_overlap self)%Z ->
                 forall text, chunk_text self text = Ok []).
  { intros Hlt text. unfold chunk_text.
    destruct (negb (truthy text)); [reflexivity|].
    rewrite range_backward_empty by lia. reflexivity. }
  assert (Hzero : chunk_overlap self = chunk_size self ->
                  forall text, text <> [] ->
                    chunk_text self text
                    = Raise (ValueError (lit "range() arg 3 must not be zero"))).
  { intros Heq text Hne. unfold chunk_text.
    destruct text as [|c text']; [congruence|].
    cbn [truthy negb]. cbv iota. rewrite Heq, Z.sub_diag. reflexivity. }
  split; [exact Hneg|]. split; [exact Hzero|].
  intros Hle text chunks Hok.
  destruct (Z.eq_dec (chunk_overlap self) (chunk_size self)) as [Heq|Hne].
  - destruct text as [|c text'].
    + unfold chunk_text in Hok. cbn in Hok. congruence.
    + rewrite (Hzero Heq) in Hok by discriminate. discriminate.
  - rewrite Hneg in Hok by lia. congruence.
Qed.

Lemma chunk_text_invalid_overlap_witness :
  chunk_text {| chunk_size := 4; chunk_overlap := 6 |} (lit "A. B. C.") = Ok []
  /\ chunk_text {| chunk_size := 4; chunk_overlap := 4 |} (lit "A. B. C.")
     = Raise (ValueError (lit "range() arg 3 must not be zero"))
  /\ (forall chunks,
        chunk_text {| chunk_size := 4; chunk_overlap := 6 |} (lit "A. B. C.")
        = Ok chunks -> chunks = []).
Proof.
  split; [|split].
  - apply (proj1 (chunk_text_invalid_overlap
                    {| chunk_size := 4; chunk_overlap := 6 |})).
    simpl; lia.
  - apply (proj1 (proj2 (chunk_text_invalid_overlap
                           {| chunk_size := 4; chunk_overlap := 4 |})));
      [reflexivity | discriminate].
  - apply (proj2 (proj2 (chunk_text_invalid_overlap
                           {| chunk_size := 4; chunk_overlap := 6 |}))).
    simpl; lia.
Defined.

(** C10: for a valid configuration [chunk_text] returns, and every chunk
    it returns is non-empty, neither starts nor ends with a whitespace
    character, and is at most [chunk_size] characters long. *)
Theorem chunk_text_chunks_trimmed (self : DocumentProcessor.t) (text : str) :
  (0 < chunk_size self)%Z ->
  (0 <= chunk_overlap self < chunk_size self)%Z ->
  exists chunks,
    chunk_text self text = Ok chunks
    /\ forall c, In c chunks ->
         c <> []
         /\ (forall x, head c = Some x -> isspace x = false)
         /\ (forall x, last c = Some x -> isspace x = false)
         /\ (Z.of_nat (length c) <= chunk_size self)%Z.
Proof.
  intros Hsize Hov.
  destruct (window_offsets_total self text) as [offsets Hoff]; [lia|].
  rewrite chunk_text_window_offsets, Hoff. cbn.
  eexists. split; [reflexivity|].
  intros c Hc. apply in_flat_map in Hc as (i & Hi & Hc).
  apply visit_emits in Hc as [-> Hne].
  split; [exact Hne|]. split; [apply strip_head|]. split; [apply strip_last|].
  pose proof (length_strip_le (slice text i (i + chunk_size self))) as H1.
  pose proof (length_slice_le text i (chunk_size self)) as H2.
  pose proof (window_offsets_nonneg self text offsets) as H3.
  specialize (H3 ltac:(lia) Hoff i Hi). lia.
Qed.

Lemma chunk_text_chunks_trimmed_witness :
  exists chunks,
    chunk_text {| chunk_size := 5; chunk_overlap := 2 |} (lit "  hello  world ")
    = Ok chunks
    /\ forall c, In c chunks ->
         c <> []
         /\ (forall x, head c = Some x -> isspace x = false)
         /\ (forall x, last c = Some x -> isspace x = false)
         /\ (Z.of_nat (length c) <= 5)%Z.
Proof.
  apply (chunk_text_chunks_trimmed
           {| chunk_size := 5; chunk_overlap := 2 |} (lit "  hello  world "));
    simpl; lia.
Defined.

End ChunkerShape.

(** ** The vector store *)

Section VectorStoreClaims.

Import VectorStore.

Implicit Types (collection : gmap (list N) Entry) (d id : list N).

Lemma elem_of_get_ids_where collection d id :
  id ∈ get_ids_where collection d
  <-> exists e, collection !! id = Some e /\ document_id (metadata e) = d.
Proof.
  unfold get_ids_where. rewrite list_elem_of_fmap. split.
  - intros ([id' e] & -> & H). apply elem_of_map_to_list in H.
    apply map_lookup_filter_Some in H as [H1 H2]. exists e. split; assumption.
  - intros (e & H1 & H2). exists (id, e). split; [reflexivity|].
    apply elem_of_map_to_list. apply map_lookup_filter_Some. split; assumption.
Qed.

Lemma lookup_delete_ids collection (ids : list (list N)) id :
  delete_ids collection ids !! id
  = if decide (id ∈ ids) then None else collection !! id.
Proof.
  unfold delete_ids. induction ids as [|a ids IH]; simpl.
  - destruct (decide (id ∈ [])) as [H|_]; [|reflexivity].
    apply elem_of_nil in H; destruct H.
  - rewrite lookup_delete. destruct (decide (a = id)) as [->|Hne].
    + destruct (decide (id ∈ id :: ids)) as [_|H]; [reflexivity|].
      exfalso; apply H; left.
    + rewrite IH. destruct (decide (id ∈ ids)) as [Hin|Hnin];
        destruct (decide (id ∈ a :: ids)) as [Hin'|Hnin']; try reflexivity.
      * exfalso; apply Hnin'; right; exact Hin.
      * apply elem_of_cons in Hin' as [->|Hin']; [congruence | contradiction].
Qed.

(** Deleting the matched ids leaves the entries of the other documents. *)
Lemma delete_matched_is_filter collection d :
  delete_ids collection (get_ids_where collection d)
  = filter (fun kv : list N * Entry => ~ document_id (metadata (snd kv)) = d)
           collection.
Proof.
  apply map_eq; intros id. rewrite lookup_delete_ids.
  apply option_eq; intros e. rewrite map_lookup_filter_Some. simpl.
  destruct (decide (id ∈ get_ids_where collection d)) as [Hin|Hnin].
  - apply elem_of_get_ids_where in Hin as (e' & He' & Hd).
    split; [discriminate|]. intros [He Hne]. congruence.
  - split.
    + intros He. split; [exact He|]. intros Hd. apply Hnin.
      apply elem_of_get_ids_where. eauto.
    + tauto.
Qed.

Lemma size_split_by_document collection d :
  size collection
  = (size (filter (fun kv : list N * Entry =>
                     document_id (metadata (snd kv)) = d) collection)
     + size (filter (fun kv : list N * Entry =>
                       ~ document_id (metadata (snd kv)) = d) collection))%nat.
Proof.
  rewrite <- map_size_disj_union by apply map_disjoint_filter_complement.
  rewrite map_filter_union_complement. reflexivity.
Qed.

Lemma length_get_ids_where collection d :
  length (get_ids_where collection d)
  = size (filter (fun kv : list N * Entry =>
                    document_id (metadata (snd kv)) = d) collection).
Proof.
  unfold get_ids_where. rewrite length_fmap. apply length_map_to_list.
Qed.

Lemma delete_document_unfold collection d :
  delete_document collection d
  = (Z.of_nat (length (get_ids_where collection d)),
     delete_ids collection (get_ids_where collection d)).
Proof.
  unfold delete_document.
  destruct (get_ids_where collection d) as [|a ids]; reflexivity.
Qed.

(** C5: [delete_document] removes exactly the entries whose metadata carry
    the given document id and returns how many they were; with no match it
    returns 0 and leaves the collection as it was; afterwards no entry
    carries that document id, and the chunk count has dropped by exactly
    the returned count. *)
Theorem delete_document_removes_exactly collection d :
  (forall id e,
     snd (delete_document collection d) !! id = Some e
     <-> collection !! id = Some e /\ document_id (metadata e) <> d)
  /\ fst (delete_document collection d)
     = Z.of_nat (size (filter (fun kv : list N * Entry =>
                                 document_id (metadata (snd kv)) = d)
                              collection))
  /\ ((forall id e, collection !! id = Some e -> document_id (metadata e) <> d)
      -> delete_document collection d = (0%Z, collection))
  /\ (forall id e,
        snd (delete_document collection d) !! id = Some e ->
        document_id (metadata e) <> d)
  /\ get_chunk_count (snd (delete_document collection d))
     = (get_chunk_count collection - fst (delete_document collection d))%Z.
Proof.
  assert (Hkeep : forall id e,
             snd (delete_document collection d) !! id = Some e
             <-> collection !! id = Some e /\ document_id (metadata e) <> d).
  { intros id e. rewrite delete_document_unfold. simpl.
    rewrite delete_matched_is_filter, map_lookup_filter_Some. reflexivity. }
  split; [exact Hkeep|]. split; [|split; [|split]].
  - rewrite delete_document_unfold. simpl. f_equal. apply length_get_ids_where.
  - intros Hnone. unfold delete_document.
    destruct (get_ids_where collection d) as [|a ids] eqn:E; [reflexivity|].
    assert (Ha : a ∈ get_ids_where collection d) by (rewrite E; left).
    apply elem_of_get_ids_where in Ha as (e & He & Hd).
    exfalso. exact (Hnone a e He Hd).
  - intros id e H. apply Hkeep in H. tauto.
  - rewrite delete_document_unfold. simpl. unfold get_chunk_count.
    rewrite delete_matched_is_filter, length_get_ids_where.
    rewrite (size_split_by_document collection d). lia.
Qed.

End VectorStoreClaims.

Lemma delete_document_removes_exactly_witness :
  VectorStore.delete_document Sample.collection (lit "D3")
  = (0%Z, Sample.collection)
  /\ fst (VectorStore.delete_document Sample.collection (lit "D1")) = 2%Z.
Proof.
  split.
  - apply (proj1 (proj2 (proj2
             (delete_document_removes_exactly Sample.collection (lit "D3"))))).
    refine (bool_decide_unpack
              (map_Forall (fun _ e =>
                 VectorStore.document_id (VectorStore.metadata e) <> lit "D3")
                 Sample.collection) _).
    vm_compute. exact I.
  - rewrite (proj1 (proj2
               (delete_document_removes_exactly Sample.collection (lit "D1")))).
    vm_compute. reflexivity.
Defined.

(** ** Binary64 arithmetic *)

Section Binary64.

Import Float64 RAGPipeline.

Local Open Scope Z_scope.

Lemma digits2_pos_bounds (p : positive) :
  2 ^ (Zpos (digits2_pos p) - 1) <= Zpos p < 2 ^ Zpos (digits2_pos p).
Proof.
  induction p as [p IH|p IH|]; cbn [digits2_pos].
  - rewrite Pos2Z.inj_succ. replace (Z.succ (Zpos (digits2_pos p)) - 1)
      with (Z.succ (Zpos (digits2_pos p) - 1)) by lia.
    rewrite !Z.pow_succ_r by lia. lia.
  - rewrite Pos2Z.inj_succ. replace (Z.succ (Zpos (digits2_pos p)) - 1)
      with (Z.succ (Zpos (digits2_pos p) - 1)) by lia.
    rewrite !Z.pow_succ_r by lia. lia.
  - cbn. lia.
Qed.

Lemma Zdigits2_bounds (m : Z) :
  0 < m -> 2 ^ (Zdigits2 m - 1) <= m < 2 ^ Zdigits2 m.
Proof. destruct m; try lia. intros _. apply digits2_pos_bounds. Qed.

Lemma Zdigits2_pos (m : Z) : 0 < m -> 0 < Zdigits2 m.
Proof. destruct m; cbn; lia. Qed.

Lemma Zdigits2_unique (m k : Z) :
  2 ^ (k - 1) <= m < 2 ^ k -> 0 < m -> Zdigits2 m = k.
Proof.
  intros [H1 H2] Hm. pose proof (Zdigits2_bounds m Hm) as [B1 B2].
  pose proof (Zdigits2_pos m Hm) as Hd.
  assert (Hk : 0 < k).
  { destruct (Z_lt_le_dec 0 k); [assumption|]. exfalso.
    destruct k; [cbn in H2; lia | lia | rewrite Z.pow_neg_r in H2 by lia; lia]. }
  destruct (Z.lt_trichotomy (Zdigits2 m) k) as [H|[H|H]]; [exfalso|assumption|exfalso].
  - assert (2 ^ Zdigits2 m <= 2 ^ (k - 1)) by (apply Z.pow_le_mono_r; lia). lia.
  - assert (2 ^ k <= 2 ^ (Zdigits2 m - 1)) by (apply Z.pow_le_mono_r; lia). lia.
Qed.

(** Shifting right. *)
Lemma shr_1_m (mrs : shr_record) :
  0 <= shr_m mrs -> shr_m (shr_1 mrs) = shr_m mrs / 2.
Proof.
  destruct mrs as [m r s]. cbn [shr_m]. intros Hm.
  destruct m as [|p|p]; [reflexivity| |lia].
  destruct p as [p|p|]; cbn [shr_1 shr_m].
  - apply Z.div_unique with 1; lia.
  - apply Z.div_unique with 0; lia.
  - reflexivity.
Qed.

Lemma iter_pos_shr_m (p : positive) :
  forall mrs, 0 <= shr_m mrs ->
    shr_m (SpecFloat.iter_pos shr_1 p mrs) = shr_m mrs / 2 ^ Zpos p.
Proof.
  induction p as [p IH|p IH|]; intros mrs Hm; cbn [SpecFloat.iter_pos].
  - assert (H1 : 0 <= shr_m (shr_1 mrs))
      by (rewrite shr_1_m by assumption; apply Z.div_pos; lia).
    assert (H2 : 0 <= shr_m (SpecFloat.iter_pos shr_1 p (shr_1 mrs)))
      by (rewrite IH by assumption; apply Z.div_pos; [lia | apply Z.pow_pos_nonneg; lia]).
    rewrite IH by assumption. rewrite IH by assumption. rewrite shr_1_m by assumption.
    rewrite !Z.div_div by (try apply Z.pow_pos_nonneg; lia).
    f_equal.
    replace (Zpos p~1) with (1 + Zpos p + Zpos p) by lia.
    rewrite !Z.pow_add_r by lia. change (2 ^ 1) with 2. lia.
  - assert (H2 : 0 <= shr_m (SpecFloat.iter_pos shr_1 p mrs))
      by (rewrite IH by assumption; apply Z.div_pos; [lia | apply Z.pow_pos_nonneg; lia]).
    rewrite IH by assumption. rewrite IH by assumption.
    rewrite !Z.div_div by (try apply Z.pow_pos_nonneg; lia).
    f_equal.
    replace (Zpos p~0) with (Zpos p + Zpos p) by lia.
    rewrite Z.pow_add_r by lia. reflexivity.
  - rewrite shr_1_m by assumption. reflexivity.
Qed.

Lemma shr_m_shr (mrs : shr_record) (e n : Z) :
  0 <= shr_m mrs ->
  shr_m (fst (shr mrs e n)) = (if 0 <? n then shr_m mrs / 2 ^ n else shr_m mrs)
  /\ snd (shr mrs e n) = (if 0 <? n then e + n else e).
Proof.
  intros Hm. destruct n as [|p|p]; cbn [shr fst snd Z.ltb Z.compare]; auto.
  split; [apply iter_pos_shr_m; assumption | reflexivity].
Qed.

Lemma shr_record_of_loc_m (m : Z) (l : location) :
  shr_m (shr_record_of_loc m l) = m.
Proof. destruct l as [|[]]; reflexivity. Qed.

Lemma round_nearest_even_range (m : Z) (l : location) :
  m <= round_nearest_even m l <= m + 1.
Proof.
  destruct l as [|[]]; cbn [round_nearest_even]; try lia.
  destruct (Z.even m); lia.
Qed.

Lemma fexp_64 (t : Z) : fexp 53 1024 t = fexp64 t.
Proof. reflexivity. Qed.

Lemma pow2_pos (n : Z) : 0 <= n -> 0 < 2 ^ n.
Proof. intros. apply Z.pow_pos_nonneg; lia. Qed.

Lemma pow2_split (a b : Z) : 0 <= a -> 0 <= b -> 2 ^ (a + b) = 2 ^ a * 2 ^ b.
Proof. intros. apply Z.pow_add_r; lia. Qed.

(** Digits of a quotient by a power of two. *)
Lemma Zdigits2_div_pow2 (m n : Z) :
  0 < m -> 0 <= n -> n < Zdigits2 m ->
  0 < m / 2 ^ n /\ Zdigits2 (m / 2 ^ n) = Zdigits2 m - n.
Proof.
  intros Hm Hn Hd. pose proof (Zdigits2_bounds m Hm) as [B1 B2].
  pose proof (pow2_pos n Hn) as Hp.
  assert (L : 2 ^ (Zdigits2 m - n - 1) <= m / 2 ^ n).
  { apply Z.div_le_lower_bound; [assumption|].
    rewrite Z.mul_comm, <- pow2_split by lia.
    replace (Zdigits2 m - n - 1 + n) with (Zdigits2 m - 1) by lia. assumption. }
  assert (U : m / 2 ^ n < 2 ^ (Zdigits2 m - n)).
  { apply Z.div_lt_upper_bound; [assumption|].
    rewrite <- pow2_split by lia.
    replace (n + (Zdigits2 m - n)) with (Zdigits2 m) by lia. assumption. }
  assert (P : 0 < m / 2 ^ n).
  { pose proof (pow2_pos (Zdigits2 m - n - 1) ltac:(lia)). lia. }
  split; [assumption|]. apply Zdigits2_unique; [|assumption].
  split; [|assumption]. replace (Zdigits2 m - n - 1) with (Zdigits2 m - n - 1) by lia.
  assumption.
Qed.

Lemma div_pow2_small (m n : Z) :
  0 < m -> Zdigits2 m <= n -> m / 2 ^ n = 0.
Proof.
  intros Hm Hd. pose proof (Zdigits2_bounds m Hm) as [B1 B2].
  pose proof (Zdigits2_pos m Hm).
  apply Z.div_small. split; [lia|].
  assert (2 ^ Zdigits2 m <= 2 ^ n) by (apply Z.pow_le_mono_r; lia). lia.
Qed.

(** Digits after adding at most one. *)
Lemma Zdigits2_succ_cases (m1 m2 : Z) :
  0 < m1 -> m1 <= m2 <= m1 + 1 ->
  Zdigits2 m2 = Zdigits2 m1
  \/ (Zdigits2 m2 = Zdigits2 m1 + 1 /\ m2 = 2 ^ Zdigits2 m1).
Proof.
  intros Hm1 Hm2. pose proof (Zdigits2_bounds m1 Hm1) as [B1 B2].
  pose proof (Zdigits2_pos m1 Hm1) as Hd.
  destruct (Z_lt_le_dec m2 (2 ^ Zdigits2 m1)) as [Hlt|Hge].
  - left. apply Zdigits2_unique; lia.
  - right. assert (m2 = 2 ^ Zdigits2 m1) by lia. split; [|assumption].
    apply Zdigits2_unique; [|lia].
    replace (Zdigits2 m1 + 1 - 1) with (Zdigits2 m1) by lia.
    split; [lia|]. rewrite H. apply Z.pow_lt_mono_r; lia.
Qed.

Lemma second_shift (s : bool) (m2 e1 : Z) :
  0 <= m2 -> -1074 <= e1 ->
  (0 < m2 ->
   fexp64 (Zdigits2 m2 + e1) = e1
   \/ (fexp64 (Zdigits2 m2 + e1) = e1 + 1 /\ m2 = 2 ^ (Zdigits2 m2 - 1)
       /\ 2 <= Zdigits2 m2)) ->
  rounds_to s m2 e1
    (let '(mrs'', e'') := shr_fexp 53 1024 m2 e1 loc_Exact in
     match shr_m mrs'' with
     | Z0 => S754_zero s
     | Zpos m => if Z.leb e'' (1024 - 53) then S754_finite s m e''
                 else S754_infinity s
     | _ => S754_nan
     end).
Proof.
  intros Hm2 He1 Hc. unfold shr_fexp. rewrite fexp_64.
  destruct (Z.eq_dec m2 0) as [->|Hnz].
  - cbn [Zdigits2]. 
    assert (Hn : fexp64 (0 + e1) - e1 <= 0) by (unfold fexp64; lia).
    destruct (fexp64 (0 + e1) - e1) as [|p|p] eqn:E; try lia; cbn; auto.
  - destruct (Hc ltac:(lia)) as [Hsame|(Hup & Hpow & Hd)].
    + rewrite Hsame, Z.sub_diag. cbn [shr shr_record_of_loc shr_m].
      destruct m2 as [|p|p]; try lia.
      destruct (Z.leb_spec e1 (1024 - 53)) as [Hle|Hgt]; cbn [rounds_to].
      * split; [reflexivity|]. split; [lia|].
        rewrite Z.sub_diag, Z.pow_0_r. split; [lia|].
        unfold canonical_mantissa. rewrite fexp_64.
        change (Zpos (digits2_pos p)) with (Zdigits2 (Zpos p)).
        rewrite Hsame. apply Z.eqb_refl.
      * split; [reflexivity|]. exists p, e1. split; [lia|]. split; [lia|].
        rewrite Z.sub_diag, Z.pow_0_r. split; [lia|].
        unfold canonical_mantissa. rewrite fexp_64.
        change (Zpos (digits2_pos p)) with (Zdigits2 (Zpos p)).
        rewrite Hsame. apply Z.eqb_refl.
    + rewrite Hup. replace (e1 + 1 - e1) with 1 by lia.
      cbn [shr SpecFloat.iter_pos]. rewrite shr_1_m
        by (rewrite shr_record_of_loc_m; lia).
      cbn [shr_record_of_loc shr_m].
      assert (Hhalf : m2 / 2 = 2 ^ (Zdigits2 m2 - 2)).
      { rewrite Hpow at 1.
        replace (Zdigits2 m2 - 1) with (1 + (Zdigits2 m2 - 2)) by lia.
        rewrite pow2_split by lia. change (2 ^ 1) with 2.
        rewrite Z.mul_comm, Z.div_mul by lia. reflexivity. }
      pose proof (pow2_pos (Zdigits2 m2 - 2) ltac:(lia)) as Hpos.
      rewrite Hhalf.
      destruct (2 ^ (Zdigits2 m2 - 2)) as [|p|p] eqn:E; try lia.
      assert (Hdp : Zdigits2 (Zpos p) = Zdigits2 m2 - 1).
      { apply Zdigits2_unique; [|lia]. rewrite <- E.
        replace (Zdigits2 m2 - 1 - 1) with (Zdigits2 m2 - 2) by lia.
        split; [lia|]. apply Z.pow_lt_mono_r; lia. }
      assert (Hval : Zpos p * 2 ^ (e1 + 1 - e1) = m2).
      { replace (e1 + 1 - e1) with 1 by lia. change (2 ^ 1) with 2.
        rewrite <- E. rewrite Hpow at 2.
        replace (Zdigits2 m2 - 1) with ((Zdigits2 m2 - 2) + 1) by lia.
        rewrite pow2_split by lia. reflexivity. }
      assert (Hcan : canonical_mantissa 53 1024 p (e1 + 1) = true).
      { unfold canonical_mantissa. rewrite fexp_64.
        change (Zpos (digits2_pos p)) with (Zdigits2 (Zpos p)).
        rewrite Hdp. replace (Zdigits2 m2 - 1 + (e1 + 1)) with (Zdigits2 m2 + e1) by lia.
        rewrite Hup. apply Z.eqb_refl. }
      destruct (Z.leb_spec (e1 + 1) (1024 - 53)) as [Hle|Hgt]; cbn [rounds_to].
      * split; [reflexivity|]. split; [lia|]. split; assumption.
      * split; [reflexivity|]. exists p, (e1 + 1). split; [lia|]. split; [lia|].
        split; assumption.
Qed.

Lemma binary_round_aux_spec (s : bool) (mx ex : Z) (lx : location) :
  0 < mx ->
  ex <= fexp64 (Zdigits2 mx + ex) ->
  exists m2,
    mx / 2 ^ (fexp64 (Zdigits2 mx + ex) - ex) <= m2
    /\ m2 <= mx / 2 ^ (fexp64 (Zdigits2 mx + ex) - ex) + 1
    /\ rounds_to s m2 (fexp64 (Zdigits2 mx + ex))
         (binary_round_aux 53 1024 s mx ex lx).
Proof.
  intros Hmx Hex.
  set (d := Zdigits2 mx). set (e1 := fexp64 (d + ex)). set (n := e1 - ex).
  assert (Hn : 0 <= n) by (subst n e1 d; lia).
  assert (He1 : -1074 <= e1) by (subst e1; unfold fexp64; lia).
  pose proof (Zdigits2_pos mx Hmx) as Hd. fold d in Hd.
  unfold binary_round_aux.
  destruct (shr_fexp 53 1024 mx ex lx) as [mrs' e'] eqn:E1.
  assert (Hm1 : shr_m mrs' = mx / 2 ^ n /\ e' = e1).
  { unfold shr_fexp in E1. rewrite fexp_64 in E1. fold d e1 n in E1.
    destruct (shr_m_shr (shr_record_of_loc mx lx) ex n) as [A B];
      [rewrite shr_record_of_loc_m; lia|].
    rewrite E1 in A, B. cbn [fst snd] in A, B.
    rewrite shr_record_of_loc_m in A.
    destruct (Z.ltb_spec 0 n).
    - split; [assumption | subst n; lia].
    - assert (n = 0) by lia. split; [|subst n; lia].
      rewrite A, H0, Z.pow_0_r, Z.div_1_r. reflexivity. }
  destruct Hm1 as [Hm1 ->].
  set (m1 := mx / 2 ^ n) in *.
  set (m2 := round_nearest_even (shr_m mrs') (loc_of_shr_record mrs')).
  pose proof (round_nearest_even_range (shr_m mrs') (loc_of_shr_record mrs')) as Hr.
  fold m2 in Hr. rewrite Hm1 in Hr.
  assert (Hm1nn : 0 <= m1) by (subst m1; apply Z.div_pos; [lia | apply pow2_pos; lia]).
  exists m2. split; [lia|]. split; [lia|].
  apply second_shift; [lia | assumption |].
  intros Hm2.
  destruct (Z_lt_le_dec n d) as [Hlt|Hge].
  - destruct (Zdigits2_div_pow2 mx n Hmx Hn Hlt) as [Hpos Hdig].
    fold m1 d in Hpos, Hdig.
    destruct (Zdigits2_succ_cases m1 m2 Hpos Hr) as [Hs|[Hs Hp]].
    + left. rewrite Hs, Hdig. replace (d - n + e1) with (d + ex) by (subst n; lia).
      reflexivity.
    + rewrite Hs, Hdig. replace (d - n + 1 + e1) with (d + ex + 1) by (subst n; lia).
      destruct (Z.eq_dec (fexp64 (d + ex + 1)) e1) as [Heq|Hne]; [left; assumption|].
      right. split; [subst e1; unfold fexp64 in *; lia|].
      split; [|lia]. rewrite Hp, Hdig. f_equal. lia.
  - left. assert (Hz : m1 = 0) by (subst m1; apply div_pow2_small; lia).
    assert (m2 = 1) by lia. subst m2. rewrite H. cbn [Zdigits2 digits2_pos].
    subst e1 n. unfold fexp64 in *. lia.
Qed.

(** Rounding, in units of the least positive double. *)

Lemma Zdigits2_mul_pow2 (m k : Z) :
  0 < m -> 0 <= k -> Zdigits2 (m * 2 ^ k) = Zdigits2 m + k.
Proof.
  intros Hm Hk. pose proof (Zdigits2_bounds m Hm) as [B1 B2].
  pose proof (Zdigits2_pos m Hm) as Hd. pose proof (pow2_pos k Hk) as Hp.
  apply Zdigits2_unique; [|nia].
  replace (Zdigits2 m + k - 1) with (Zdigits2 m - 1 + k) by lia.
  rewrite !pow2_split by lia. nia.
Qed.

Lemma binary_round_aux_scaled (s : bool) (mx ex : Z) (lx : location) :
  0 < mx -> -1074 <= ex ->
  ex <= fexp64 (Zdigits2 mx + ex) ->
  exists m2,
    mx * 2 ^ (ex + 1074) / 2 ^ Z.max (Zdigits2 (mx * 2 ^ (ex + 1074)) - 53) 0 <= m2
    /\ m2 <= mx * 2 ^ (ex + 1074)
               / 2 ^ Z.max (Zdigits2 (mx * 2 ^ (ex + 1074)) - 53) 0 + 1
    /\ rounds_to s m2 (Z.max (Zdigits2 (mx * 2 ^ (ex + 1074)) - 53) 0 - 1074)
         (binary_round_aux 53 1024 s mx ex lx).
Proof.
  intros Hmx Hex Hfexp.
  destruct (binary_round_aux_spec s mx ex lx Hmx Hfexp) as (m2 & H1 & H2 & H3).
  rewrite Zdigits2_mul_pow2 by lia.
  assert (E1 : Z.max (Zdigits2 mx + (ex + 1074) - 53) 0 - 1074
               = fexp64 (Zdigits2 mx + ex)) by (unfold fexp64; lia).
  rewrite E1.
  assert (E2 : mx * 2 ^ (ex + 1074) / 2 ^ Z.max (Zdigits2 mx + (ex + 1074) - 53) 0
               = mx / 2 ^ (fexp64 (Zdigits2 mx + ex) - ex)).
  { replace (Z.max (Zdigits2 mx + (ex + 1074) - 53) 0)
      with ((fexp64 (Zdigits2 mx + ex) - ex) + (ex + 1074)) by lia.
    rewrite (pow2_split (fexp64 (Zdigits2 mx + ex) - ex) (ex + 1074)) by lia.
    apply Z.div_mul_cancel_r.
    - pose proof (pow2_pos (fexp64 (Zdigits2 mx + ex) - ex)). lia.
    - pose proof (pow2_pos (ex + 1074)). lia. }
  rewrite E2. exists m2. auto.
Qed.

Lemma shift_pos_pow2 (d m : positive) : Zpos (Pos.iter xO m d) = Zpos m * 2 ^ Zpos d.
Proof.
  change (Pos.iter xO m d) with (Zpower.shift_pos d m).
  rewrite Zpower.shift_pos_correct, Zpower.Zpower_pos_nat, Zpower.Zpower_nat_Z.
  rewrite positive_nat_Z. lia.
Qed.

Lemma binary_round_scaled (s : bool) (mx : positive) (ex : Z) :
  -1074 <= ex ->
  exists m2,
    Zpos mx * 2 ^ (ex + 1074)
      / 2 ^ Z.max (Zdigits2 (Zpos mx * 2 ^ (ex + 1074)) - 53) 0 <= m2
    /\ m2 <= Zpos mx * 2 ^ (ex + 1074)
               / 2 ^ Z.max (Zdigits2 (Zpos mx * 2 ^ (ex + 1074)) - 53) 0 + 1
    /\ rounds_to s m2 (Z.max (Zdigits2 (Zpos mx * 2 ^ (ex + 1074)) - 53) 0 - 1074)
         (binary_round 53 1024 s mx ex).
Proof.
  intros Hex. unfold binary_round, shl_align.
  rewrite fexp_64. change (Zpos (digits2_pos mx)) with (Zdigits2 (Zpos mx)).
  destruct (fexp64 (Zdigits2 (Zpos mx) + ex) - ex) as [|p|d] eqn:E.
  - apply binary_round_aux_scaled; lia.
  - apply binary_round_aux_scaled; lia.
  - assert (Hs : Zpos (Pos.iter xO mx d) * 2 ^ (fexp64 (Zdigits2 (Zpos mx) + ex) + 1074)
                 = Zpos mx * 2 ^ (ex + 1074)).
    { rewrite shift_pos_pow2.
      replace (ex + 1074) with (Zpos d + (fexp64 (Zdigits2 (Zpos mx) + ex) + 1074)) by lia.
      rewrite (pow2_split (Zpos d)) by (unfold fexp64; lia). lia. }
    rewrite <- Hs. apply binary_round_aux_scaled; [lia | unfold fexp64; lia |].
    rewrite shift_pos_pow2, Zdigits2_mul_pow2 by lia.
    replace (Zdigits2 (Zpos mx) + Zpos d + fexp64 (Zdigits2 (Zpos mx) + ex))
      with (Zdigits2 (Zpos mx) + ex + (Zpos d + fexp64 (Zdigits2 (Zpos mx) + ex) - ex)) by lia.
    replace (Zpos d + fexp64 (Zdigits2 (Zpos mx) + ex) - ex) with 0 by lia.
    rewrite Z.add_0_r. lia.
Qed.

(** Canonical mantissas and comparison. *)

Lemma canonical_bounds (m : positive) (e : Z) :
  canonical_mantissa 53 1024 m e = true ->
  -1074 <= e /\ Zpos m < 2 ^ 53 /\ (-1074 < e -> 2 ^ 52 <= Zpos m).
Proof.
  unfold canonical_mantissa. rewrite fexp_64. intros H. apply Z.eqb_eq in H.
  change (Zpos (digits2_pos m)) with (Zdigits2 (Zpos m)) in H.
  pose proof (Zdigits2_bounds (Zpos m) eq_refl) as [B1 B2].
  pose proof (Zdigits2_pos (Zpos m) eq_refl) as Hd.
  unfold fexp64 in H.
  split; [lia|]. split.
  - apply Z.lt_le_trans with (1 := B2). apply Z.pow_le_mono_r; lia.
  - intros He. replace (Zdigits2 (Zpos m)) with 53 in B1 by lia. exact B1.
Qed.

Lemma scaled_pos (m : positive) (e : Z) : -1074 <= e -> 0 < scaled m e.
Proof. intros He. unfold scaled. pose proof (pow2_pos (e + 1074)). nia. Qed.

Lemma scaled_lt (m1 m2 : positive) (e1 e2 : Z) :
  canonical_mantissa 53 1024 m1 e1 = true ->
  canonical_mantissa 53 1024 m2 e2 = true ->
  e1 < e2 -> scaled m1 e1 < scaled m2 e2.
Proof.
  intros C1 C2 He.
  apply canonical_bounds in C1 as (A1 & A2 & _).
  apply canonical_bounds in C2 as (B1 & _ & B3).
  specialize (B3 ltac:(lia)). unfold scaled.
  pose proof (pow2_pos (e1 + 1074) ltac:(lia)) as Hp.
  assert (Hq : 2 * 2 ^ (e1 + 1074) <= 2 ^ (e2 + 1074)).
  { replace (2 * 2 ^ (e1 + 1074)) with (2 ^ (e1 + 1074 + 1))
      by (rewrite pow2_split by lia; lia).
    apply Z.pow_le_mono_r; lia. }
  change (2 ^ 53) with (2 * 2 ^ 52) in A2.
  set (a := 2 ^ 52) in *. set (p := 2 ^ (e1 + 1074)) in *.
  set (q := 2 ^ (e2 + 1074)) in *. nia.
Qed.

Lemma mul_compare_r (a b p : Z) : 0 < p -> (a * p ?= b * p) = (a ?= b).
Proof.
  intros Hp. destruct (Z.compare_spec a b) as [->|H|H].
  - apply Z.compare_refl.
  - apply Z.compare_lt_iff. nia.
  - apply Z.compare_gt_iff. nia.
Qed.

Lemma SFcompare_pos (m1 m2 : positive) (e1 e2 : Z) :
  canonical_mantissa 53 1024 m1 e1 = true ->
  canonical_mantissa 53 1024 m2 e2 = true ->
  SFcompare (S754_finite false m1 e1) (S754_finite false m2 e2)
  = Some (scaled m1 e1 ?= scaled m2 e2).
Proof.
  intros C1 C2. cbn [SFcompare]. f_equal.
  destruct (Z.compare_spec e1 e2) as [->|H|H].
  - unfold scaled. pose proof (canonical_bounds _ _ C2) as (A & _).
    rewrite mul_compare_r by (apply pow2_pos; lia). reflexivity.
  - symmetry. apply Z.compare_lt_iff. apply scaled_lt; assumption.
  - symmetry. apply Z.compare_gt_iff. apply scaled_lt; assumption.
Qed.

Lemma SFcompare_neg (m1 m2 : positive) (e1 e2 : Z) :
  canonical_mantissa 53 1024 m1 e1 = true ->
  canonical_mantissa 53 1024 m2 e2 = true ->
  SFcompare (S754_finite true m1 e1) (S754_finite true m2 e2)
  = Some (scaled m2 e2 ?= scaled m1 e1).
Proof.
  intros C1 C2. cbn [SFcompare]. f_equal.
  destruct (Z.compare_spec e1 e2) as [->|H|H].
  - unfold scaled. pose proof (canonical_bounds _ _ C2) as (A & _).
    rewrite mul_compare_r by (apply pow2_pos; lia).
    rewrite (Z.compare_antisym (Zpos m1) (Zpos m2)). reflexivity.
  - symmetry. apply Z.compare_gt_iff. apply scaled_lt; assumption.
  - symmetry. apply Z.compare_lt_iff. apply scaled_lt; assumption.
Qed.

Lemma SFcompare_antisym (x y : float) :
  SFcompare y x = option_map CompOpp (SFcompare x y).
Proof.
  destruct x as [sx|sx| |sx mx ex], y as [sy|sy| |sy my ey];
    try destruct sx; try destruct sy; try reflexivity;
    cbn [SFcompare option_map]; f_equal;
    rewrite (Z.compare_antisym ex ey);
    destruct (ex ?= ey); cbn [CompOpp]; try reflexivity;
    change Eq with (CompOpp Eq) at 1;
    rewrite <- (Pos.compare_cont_antisym mx my Eq);
    rewrite ?CompOpp_involutive; reflexivity.
Qed.

Lemma rounds_to_finite (s s' : bool) (m2 e1 : Z) (m3 : positive) (e3 : Z) :
  -1074 <= e1 ->
  rounds_to s m2 e1 (S754_finite s' m3 e3) ->
  s' = s /\ canonical_mantissa 53 1024 m3 e3 = true /\ e3 <= 971
  /\ scaled m3 e3 = m2 * 2 ^ (e1 + 1074).
Proof.
  intros He (-> & [H1 H2] & H3 & H4). repeat split; try assumption.
  unfold scaled. rewrite <- H3.
  replace (e3 + 1074) with (e3 - e1 + (e1 + 1074)) by lia.
  rewrite pow2_split by lia. lia.
Qed.

(** Subtraction from [1.0]. *)

Lemma shl_align_fst (mx : positive) (ex ez : Z) :
  ez <= ex -> Zpos (fst (shl_align mx ex ez)) = Zpos mx * 2 ^ (ex - ez).
Proof.
  intros H. unfold shl_align. destruct (ez - ex) as [|p|d] eqn:E; cbn [fst].
  - replace (ex - ez) with 0 by lia. lia.
  - lia.
  - rewrite shift_pos_pow2. f_equal. f_equal. lia.
Qed.

Lemma cond_Zopp_mul (s : bool) (a b : Z) : cond_Zopp s a * b = cond_Zopp s (a * b).
Proof. destruct s; cbn [cond_Zopp]; lia. Qed.

Lemma sub_one_finite (s : bool) (m : positive) (e : Z) :
  -1074 <= e ->
  exists M ez,
    sub one (S754_finite s m e) = binary_normalize 53 1024 M ez false
    /\ -1074 <= ez
    /\ M * 2 ^ (ez + 1074) = 2 ^ 1074 - cond_Zopp s (scaled m e).
Proof.
  intros He. unfold sub, one. cbn [SFsub]. eexists _, _.
  split; [reflexivity|]. split; [lia|].
  rewrite !shl_align_fst by lia. cbn [cond_Zopp].
  set (ez := Z.min (-52) e).
  rewrite Z.mul_sub_distr_r, cond_Zopp_mul. f_equal.
  - change (Zpos 4503599627370496) with (2 ^ 52).
    rewrite <- !pow2_split by lia. f_equal. lia.
  - f_equal. unfold scaled. rewrite <- Z.mul_assoc, <- pow2_split by lia.
    do 2 f_equal. lia.
Qed.

Lemma rounds_to_infinity_large (s s' : bool) (m2 n : Z) :
  0 <= n -> rounds_to s m2 (n - 1074) (S754_infinity s') ->
  s' = s /\ 2 ^ 2046 <= m2 * 2 ^ n.
Proof.
  intros Hn (-> & m3 & e3 & H1 & H2 & H3 & _). split; [reflexivity|].
  rewrite <- H3. rewrite <- Z.mul_assoc, <- pow2_split by lia.
  replace (e3 - (n - 1074) + n) with (e3 + 1074) by lia.
  assert (2 ^ 2046 <= 2 ^ (e3 + 1074)) by (apply Z.pow_le_mono_r; lia).
  pose proof (Pos2Z.is_pos m3). nia.
Qed.

Lemma rounds_to_unit (m2 n : Z) (r : float) :
  0 <= n -> rounds_to false m2 (n - 1074) r -> m2 * 2 ^ n <= 2 ^ 1074 ->
  unit_interval r.
Proof.
  intros Hn Hr Hle. destruct r as [s|s| |s m e].
  - destruct Hr as [-> _]. reflexivity.
  - apply rounds_to_infinity_large in Hr as [_ Hr]; [|assumption].
    assert (2 ^ 1074 < 2 ^ 2046) by (apply Z.pow_lt_mono_r; lia). lia.
  - destruct Hr.
  - apply rounds_to_finite in Hr as (-> & C & E & S); [|lia].
    replace (n - 1074 + 1074) with n in S by lia.
    cbn [unit_interval]. rewrite S. auto.
Qed.

Lemma rounds_to_above (m2 n : Z) (r : float) :
  0 <= n -> rounds_to false m2 (n - 1074) r ->
  2 ^ 1074 + 2 ^ 1064 <= m2 * 2 ^ n ->
  above_one r.
Proof.
  intros Hn Hr Hle. destruct r as [s|s| |s m e].
  - destruct Hr as [_ ->]. pose proof (pow2_pos 1074). pose proof (pow2_pos 1064). lia.
  - destruct Hr as [-> _]. reflexivity.
  - destruct Hr.
  - apply rounds_to_finite in Hr as (-> & C & E & S); [|lia].
    replace (n - 1074 + 1074) with n in S by lia.
    cbn [above_one]. rewrite S. auto.
Qed.

Lemma rounds_to_negative (m2 e1 : Z) (r : float) :
  rounds_to true m2 e1 r -> negative r.
Proof.
  destruct r as [s|s| |s m e]; cbn [rounds_to negative]; tauto.
Qed.

Lemma round_up_le (S n m2 : Z) :
  0 < S < 2 ^ 1074 -> n = Z.max (Zdigits2 S - 53) 0 -> m2 <= S / 2 ^ n + 1 ->
  m2 * 2 ^ n <= 2 ^ 1074.
Proof.
  intros [H0 H1] Hn Hm.
  pose proof (Zdigits2_bounds S H0) as [B1 B2].
  assert (Hd : Zdigits2 S <= 1074).
  { destruct (Z_lt_le_dec 1074 (Zdigits2 S)) as [H|H]; [|assumption].
    assert (2 ^ 1074 <= 2 ^ (Zdigits2 S - 1)) by (apply Z.pow_le_mono_r; lia). lia. }
  assert (Hn0 : 0 <= n <= 1074) by lia.
  pose proof (pow2_pos n ltac:(lia)) as Hp.
  assert (E : 2 ^ 1074 = 2 ^ (1074 - n) * 2 ^ n)
    by (rewrite <- pow2_split by lia; f_equal; lia).
  assert (Hq : S / 2 ^ n < 2 ^ (1074 - n)).
  { apply Z.div_lt_upper_bound; [assumption|]. rewrite Z.mul_comm, <- E. assumption. }
  rewrite E. apply Z.mul_le_mono_nonneg_r; lia.
Qed.

Lemma round_lower (S n m2 : Z) :
  2 ^ 1074 + 2 ^ 1064 <= S -> n = Z.max (Zdigits2 S - 53) 0 -> S / 2 ^ n <= m2 ->
  2 ^ 1074 + 2 ^ 1064 <= m2 * 2 ^ n.
Proof.
  intros HB Hn Hm.
  pose proof (pow2_pos 1074 ltac:(lia)) as P1. pose proof (pow2_pos 1064 ltac:(lia)) as P2.
  assert (H0 : 0 < S) by lia.
  pose proof (Zdigits2_bounds S H0) as [B1 B2].
  assert (Hn0 : 0 <= n) by lia.
  pose proof (pow2_pos n Hn0) as Hp.
  destruct (Z_le_gt_dec n 1064) as [Hs|Hl].
  - assert (E : 2 ^ 1074 + 2 ^ 1064 = (2 ^ (1074 - n) + 2 ^ (1064 - n)) * 2 ^ n).
    { rewrite Z.mul_add_distr_r, <- !pow2_split by lia. f_equal; f_equal; lia. }
    rewrite E. apply Z.mul_le_mono_nonneg_r; [lia|].
    apply Z.le_trans with (2 := Hm).
    apply Z.div_le_lower_bound; [assumption|]. rewrite Z.mul_comm, <- E. assumption.
  - assert (Hq : 2 ^ 52 <= S / 2 ^ n).
    { apply Z.div_le_lower_bound; [assumption|].
      rewrite <- pow2_split by lia. replace (n + 52) with (Zdigits2 S - 1) by lia.
      assumption. }
    assert (Hbig : 2 ^ 1074 + 2 ^ 1064 <= 2 ^ 52 * 2 ^ n).
    { rewrite <- pow2_split by lia.
      apply Z.le_trans with (2 ^ 1075).
      - change (2 ^ 1075) with (2 ^ 1074 + 2 ^ 1074).
        assert (2 ^ 1064 <= 2 ^ 1074) by (apply Z.pow_le_mono_r; lia). lia.
      - apply Z.pow_le_mono_r; lia. }
    apply Z.le_trans with (1 := Hbig). apply Z.mul_le_mono_nonneg_r; lia.
Qed.

(** The three regimes of [1.0 - d]. *)

Lemma is_double_finite (s : bool) (m : positive) (e : Z) :
  is_double (S754_finite s m e) = true ->
  canonical_mantissa 53 1024 m e = true /\ e <= 971.
Proof.
  unfold is_double. cbn [valid_binary]. unfold bounded.
  intros H. apply andb_true_iff in H as [C E]. apply Z.leb_le in E.
  split; [assumption | lia].
Qed.

Lemma canonical_one : canonical_mantissa 53 1024 4503599627370496 (-52) = true.
Proof. reflexivity. Qed.

Lemma scaled_one : scaled 4503599627370496 (-52) = 2 ^ 1074.
Proof. reflexivity. Qed.

Lemma sub_one_unit (d : float) :
  is_double d = true -> SFleb zero d = true -> SFleb d one = true ->
  unit_interval (sub one d).
Proof.
  intros V H0 H1. destruct d as [s|s| |s m e].
  - change (sub one (S754_zero s)) with one. unfold one. cbn [unit_interval].
    rewrite scaled_one. repeat split; try reflexivity; lia.
  - destruct s; discriminate.
  - discriminate.
  - destruct s; [discriminate H0|].
    apply is_double_finite in V as [C E].
    unfold SFleb, one in H1.
    rewrite (SFcompare_pos _ _ _ _ C canonical_one), scaled_one in H1.
    assert (Hle : scaled m e <= 2 ^ 1074).
    { destruct (Z.compare_spec (scaled m e) (2 ^ 1074)); [lia | lia | discriminate]. }
    pose proof (canonical_bounds _ _ C) as (He & _).
    pose proof (scaled_pos m e He) as Hpos.
    destruct (sub_one_finite false m e He) as (M & ez & -> & Hez & HM).
    cbn [cond_Zopp] in HM.
    pose proof (pow2_pos (ez + 1074) ltac:(lia)) as Hp.
    destruct M as [|p|p]; [reflexivity| |exfalso; nia].
    cbn [binary_normalize].
    destruct (binary_round_scaled false p ez Hez) as (m2 & L & U & R).
    rewrite HM in L, U, R.
    eapply rounds_to_unit; [|exact R|]; [lia|].
    apply (round_up_le (2 ^ 1074 - scaled m e)); [nia | reflexivity | exact U].
Qed.

Lemma sub_one_above (d : float) :
  is_double d = true -> SFleb d neg_milli = true -> above_one (sub one d).
Proof.
  intros V H. destruct d as [s|s| |s m e].
  - destruct s; discriminate.
  - destruct s; [reflexivity | discriminate].
  - discriminate.
  - destruct s; [|discriminate H].
    apply is_double_finite in V as [C E].
    unfold SFleb, neg_milli in H.
    rewrite (SFcompare_neg m 4611686018427388 e (-62) C eq_refl) in H.
    assert (Hle : scaled 4611686018427388 (-62) <= scaled m e).
    { destruct (Z.compare_spec (scaled 4611686018427388 (-62)) (scaled m e));
        [lia | lia | discriminate]. }
    assert (Hm : 2 ^ 1064 <= scaled 4611686018427388 (-62)) by (vm_compute; discriminate).
    pose proof (canonical_bounds _ _ C) as (He & _).
    destruct (sub_one_finite true m e He) as (M & ez & -> & Hez & HM).
    cbn [cond_Zopp] in HM.
    pose proof (pow2_pos (ez + 1074) ltac:(lia)) as Hp.
    pose proof (pow2_pos 1074 ltac:(lia)) as Hp1.
    destruct M as [|p|p]; [exfalso; lia| |exfalso; nia].
    cbn [binary_normalize].
    destruct (binary_round_scaled false p ez Hez) as (m2 & L & U & R).
    rewrite HM in L, U, R.
    eapply rounds_to_above; [|exact R|]; [lia|].
    apply (round_lower (2 ^ 1074 - - scaled m e)); [lia | reflexivity | exact L].
Qed.

Lemma sub_one_negative (d : float) :
  is_double d = true -> SFltb one d = true -> negative (sub one d).
Proof.
  intros V H. destruct d as [s|s| |s m e].
  - discriminate.
  - destruct s; [discriminate | reflexivity].
  - discriminate.
  - destruct s; [discriminate H|].
    apply is_double_finite in V as [C E].
    unfold SFltb, one in H.
    rewrite (SFcompare_pos _ _ _ _ canonical_one C), scaled_one in H.
    assert (Hlt : 2 ^ 1074 < scaled m e).
    { destruct (Z.compare_spec (2 ^ 1074) (scaled m e)); [discriminate | lia | discriminate]. }
    pose proof (canonical_bounds _ _ C) as (He & _).
    destruct (sub_one_finite false m e He) as (M & ez & -> & Hez & HM).
    cbn [cond_Zopp] in HM.
    pose proof (pow2_pos (ez + 1074) ltac:(lia)) as Hp.
    destruct M as [|p|p]; [exfalso; lia | exfalso; nia |].
    cbn [binary_normalize].
    destruct (binary_round_scaled true p ez Hez) as (m2 & _ & _ & R).
    exact (rounds_to_negative _ _ _ R).
Qed.

(** Clamping. *)

Lemma unit_interval_le (x : float) :
  unit_interval x ->
  SFleb zero x = true /\ SFleb x one = true /\ SFltb one x = false.
Proof.
  destruct x as [s|s| |s m e]; cbn [unit_interval]; [|tauto|tauto|].
  - intros _. repeat split; reflexivity.
  - intros (Hs & C & E & S). subst s. split; [reflexivity|].
    unfold SFleb, SFltb, one.
    rewrite (SFcompare_pos _ _ _ _ C canonical_one).
    rewrite (SFcompare_pos _ _ _ _ canonical_one C), scaled_one.
    destruct (Z.compare_spec (scaled m e) (2 ^ 1074));
      destruct (Z.compare_spec (2 ^ 1074) (scaled m e)); try lia; auto.
Qed.

Lemma clamp_unit (x : float) : unit_interval x -> Design.clamp x zero one = x.
Proof.
  intros U. pose proof (unit_interval_le x U) as (_ & _ & H).
  unfold Design.clamp, Float64.min. rewrite H.
  destruct x as [s|s| |s m e]; cbn [unit_interval] in U; try tauto.
  - subst s. reflexivity.
  - destruct U as [-> _]. reflexivity.
Qed.

Lemma clamp_negative (x : float) : negative x -> Design.clamp x zero one = zero.
Proof.
  destruct x as [s|s| |s m e]; cbn [negative]; try tauto; intros ->; reflexivity.
Qed.

Lemma above_one_le (x : float) : above_one x -> SFleb x one = false.
Proof.
  destruct x as [s|s| |s m e]; cbn [above_one]; try tauto.
  - intros ->. reflexivity.
  - intros (-> & C & S). unfold SFleb, one.
    rewrite (SFcompare_pos _ _ _ _ C canonical_one), scaled_one.
    pose proof (pow2_pos 1064 ltac:(lia)).
    destruct (Z.compare_spec (scaled m e) (2 ^ 1074)); try lia; auto.
Qed.

(** Rounding to decimals. *)

Lemma round_half_even_bounds (x : Q) (n : Z) :
  (0 <= x <= inject_Z n)%Q -> (0 <= round_half_even x <= n)%Z.
Proof.
  intros [H0 Hn].
  assert (F0 : (0 <= Qfloor x)%Z).
  { change 0%Z with (Qfloor (inject_Z 0)). apply Qfloor_resp_le. exact H0. }
  assert (Fn : (Qfloor x <= n)%Z).
  { rewrite <- (Qfloor_Z n). apply Qfloor_resp_le. exact Hn. }
  pose proof (Qfloor_le x) as Hfl.
  unfold round_half_even.
  destruct (Qcompare_spec (x - inject_Z (Qfloor x)) (1 # 2)) as [H|H|H].
  - destruct (Z.even _); [lia|].
    assert (Hlt : (inject_Z (Qfloor x) < inject_Z n)%Q) by lra.
    rewrite <- Zlt_Qlt in Hlt. lia.
  - lia.
  - assert (Hlt : (inject_Z (Qfloor x) < inject_Z n)%Q) by lra.
    rewrite <- Zlt_Qlt in Hlt. lia.
Qed.

Lemma round_half_even_above (x : Q) (n : Z) :
  (inject_Z n - (1 # 2) < x)%Q -> (n <= round_half_even x)%Z.
Proof.
  intros Hx.
  pose proof (Qfloor_le x) as Hfl. pose proof (Qlt_floor x) as Hfu.
  assert (Hn1 : (inject_Z (n - 1) == inject_Z n - 1)%Q).
  { unfold Qeq, Qminus, Qplus, Qopp, inject_Z. cbn [Qnum Qden]. lia. }
  assert (Hf : (n - 1 <= Qfloor x)%Z).
  { assert (H : (inject_Z (n - 1) < inject_Z (Qfloor x + 1))%Q) by lra.
    rewrite <- Zlt_Qlt in H. lia. }
  unfold round_half_even.
  destruct (Qcompare_spec (x - inject_Z (Qfloor x)) (1 # 2)) as [H|H|H].
  - destruct (Z.eq_dec (Qfloor x) (n - 1)) as [E|E]; [exfalso|destruct (Z.even _); lia].
    rewrite E in H. lra.
  - destruct (Z.eq_dec (Qfloor x) (n - 1)) as [E|E]; [exfalso|lia].
    rewrite E in H. lra.
  - lia.
Qed.

Lemma magnitude_scaled (m : positive) (e : Z) :
  -1074 <= e ->
  scaled m e * 2 ^ Z.max (- e) 0 = Zpos m * 2 ^ Z.max e 0 * 2 ^ 1074.
Proof.
  intros He. unfold scaled. rewrite <- !Z.mul_assoc, <- !pow2_split by lia.
  do 2 f_equal. lia.
Qed.

Lemma magnitude_unit (m : positive) (e : Z) :
  -1074 <= e -> scaled m e <= 2 ^ 1074 ->
  (0 <= magnitude m e * inject_Z 1000 <= inject_Z 1000)%Q.
Proof.
  intros He Hs. pose proof (magnitude_scaled m e He) as E.
  pose proof (pow2_pos (Z.max (- e) 0) ltac:(lia)) as Hb.
  pose proof (pow2_pos (Z.max e 0) ltac:(lia)) as Ha.
  pose proof (pow2_pos 1074 ltac:(lia)) as Hp.
  assert (Hle : Zpos m * 2 ^ Z.max e 0 <= 2 ^ Z.max (- e) 0) by nia.
  unfold magnitude, Qle, Qmult, inject_Z. cbn [Qnum Qden].
  rewrite !Pos.mul_1_r, Z2Pos.id by assumption.
  split; nia.
Qed.

Lemma magnitude_above (m : positive) (e : Z) :
  -1074 <= e -> 2 ^ 1074 + 2 ^ 1064 <= scaled m e ->
  (inject_Z 1001 - (1 # 2) < magnitude m e * inject_Z 1000)%Q.
Proof.
  intros He Hs. pose proof (magnitude_scaled m e He) as E.
  pose proof (pow2_pos (Z.max (- e) 0) ltac:(lia)) as Hb.
  pose proof (pow2_pos (Z.max e 0) ltac:(lia)) as Ha.
  pose proof (pow2_pos 1064 ltac:(lia)) as Hp.
  change (2 ^ 1074) with (1024 * 2 ^ 1064) in *.
  assert (Hle : 1025 * 2 ^ Z.max (- e) 0 <= 1024 * (Zpos m * 2 ^ Z.max e 0)) by nia.
  unfold magnitude, Qlt, Qmult, Qminus, Qplus, Qopp, inject_Z. cbn [Qnum Qden].
  rewrite !Pos.mul_1_r, !Pos.mul_1_l, Z2Pos.id by assumption.
  cbn [Pos.mul]. lia.
Qed.

Lemma of_decimal_thousandths (k : Z) :
  1 <= k <= 1000 ->
  SFleb zero (of_decimal false k 1000) = true
  /\ SFleb (of_decimal false k 1000) one = true.
Proof.
  intros Hk.
  assert (T : forallb (fun i => SFleb zero (of_decimal false (Z.of_nat i) 1000)
                                && SFleb (of_decimal false (Z.of_nat i) 1000) one)
                      (seq 1 1000) = true) by (vm_compute; reflexivity).
  rewrite forallb_forall in T. specialize (T (Z.to_nat k)).
  rewrite Z2Nat.id in T by lia.
  apply andb_true_iff. apply T. apply in_seq. lia.
Qed.

Lemma div_core_thousand (k : Z) :
  1001 <= k ->
  exists l,
    SFdiv_core_binary 53 1024 k 0 1000 0
    = (k * 2 ^ Z.max (63 - Zdigits2 k) 0 / 1000, - Z.max (63 - Zdigits2 k) 0, l).
Proof.
  intros Hk. unfold SFdiv_core_binary. rewrite fexp_64.
  change (Zdigits2 1000) with 10. rewrite !Z.add_0_r. change (0 - 0) with 0.
  pose proof (Zdigits2_bounds k ltac:(lia)) as [B1 B2].
  assert (Hd : 10 <= Zdigits2 k).
  { destruct (Z_lt_le_dec (Zdigits2 k) 10) as [H|H]; [exfalso|assumption].
    assert (2 ^ Zdigits2 k <= 2 ^ 9) by (apply Z.pow_le_mono_r; lia).
    change (2 ^ 9) with 512 in *. lia. }
  set (d1 := Zdigits2 k) in *. unfold fexp64.
  destruct (Z_lt_le_dec d1 63) as [H|H].
  - replace (Z.min (Z.max (d1 - 10 - 53) (-1074)) 0) with (d1 - 63) by lia.
    replace (0 - (d1 - 63)) with (63 - d1) by lia.
    replace (Z.max (63 - d1) 0) with (63 - d1) by lia.
    destruct (63 - d1) as [|p|p] eqn:E; try lia.
    rewrite Z.shiftl_mul_pow2 by lia. unfold Z.div.
    destruct (Z.div_eucl (k * 2 ^ Zpos p) 1000) as [q r].
    eexists. f_equal. f_equal. lia.
  - replace (Z.min (Z.max (d1 - 10 - 53) (-1074)) 0) with 0 by lia.
    replace (Z.max (63 - d1) 0) with 0 by lia.
    change (0 - 0) with 0. cbv iota. rewrite Z.mul_1_r. unfold Z.div.
    destruct (Z.div_eucl k 1000) as [q r]. eexists. reflexivity.
Qed.

Lemma of_decimal_above (k : Z) : 1001 <= k -> above_one (of_decimal false k 1000).
Proof.
  intros Hk. unfold of_decimal.
  destruct (div_core_thousand k Hk) as [l ->].
  pose proof (Zdigits2_bounds k ltac:(lia)) as [B1 B2].
  set (d1 := Zdigits2 k) in *. set (s := Z.max (63 - d1) 0).
  assert (Hd : 10 <= d1).
  { destruct (Z_lt_le_dec d1 10) as [H|H]; [exfalso|assumption].
    assert (2 ^ d1 <= 2 ^ 9) by (apply Z.pow_le_mono_r; lia).
    change (2 ^ 9) with 512 in *. lia. }
  assert (Hs : 0 <= s <= 53) by lia.
  pose proof (pow2_pos s ltac:(lia)) as Hps.
  set (q := k * 2 ^ s / 1000).
  assert (Hq : 2 ^ 52 <= q).
  { apply Z.div_le_lower_bound; [lia|].
    apply Z.le_trans with (2 ^ 62); [vm_compute; discriminate|].
    apply Z.le_trans with (2 ^ (d1 - 1) * 2 ^ s); [|nia].
    rewrite <- pow2_split by lia. apply Z.pow_le_mono_r; lia. }
  assert (Hq0 : 0 < q) by (pose proof (pow2_pos 52); lia).
  assert (Hdq : 53 <= Zdigits2 q).
  { pose proof (Zdigits2_bounds q Hq0) as [_ Q2].
    destruct (Z_lt_le_dec (Zdigits2 q) 53) as [H|H]; [exfalso|assumption].
    assert (2 ^ Zdigits2 q <= 2 ^ 52) by (apply Z.pow_le_mono_r; lia). lia. }
  destruct (binary_round_aux_scaled false q (- s) l Hq0 ltac:(lia))
    as (m2 & L & _ & R); [unfold fexp64; lia|].
  eapply rounds_to_above; [|exact R|]; [lia|].
  apply (round_lower (q * 2 ^ (- s + 1074))); [|reflexivity|exact L].
  destruct (Z_le_gt_dec 10 s) as [Hbig|Hsmall].
  - assert (Hq2 : 2 ^ s + 2 ^ (s - 10) <= q).
    { apply Z.div_le_lower_bound; [lia|].
      assert (E : 2 ^ s = 1024 * 2 ^ (s - 10)).
      { change 1024 with (2 ^ 10). rewrite <- pow2_split by lia. f_equal. lia. }
      pose proof (pow2_pos (s - 10) ltac:(lia)). rewrite E. nia. }
    replace (2 ^ 1074) with (2 ^ s * 2 ^ (- s + 1074))
      by (rewrite <- pow2_split by lia; f_equal; lia).
    replace (2 ^ 1064) with (2 ^ (s - 10) * 2 ^ (- s + 1074))
      by (rewrite <- pow2_split by lia; f_equal; lia).
    rewrite <- Z.mul_add_distr_r.
    apply Z.mul_le_mono_nonneg_r; [|assumption].
    pose proof (pow2_pos (- s + 1074) ltac:(lia)). lia.
  - apply Z.le_trans with (2 ^ 52 * 2 ^ (- s + 1074)).
    + rewrite <- pow2_split by lia.
      apply Z.le_trans with (2 ^ 1075).
      * change (2 ^ 1075) with (2 ^ 1074 + 2 ^ 1074).
        assert (2 ^ 1064 <= 2 ^ 1074) by (apply Z.pow_le_mono_r; lia). lia.
      * apply Z.pow_le_mono_r; lia.
    + apply Z.mul_le_mono_nonneg_r; [|assumption].
      pose proof (pow2_pos (- s + 1074) ltac:(lia)). lia.
Qed.

Lemma round_unit (x : float) :
  unit_interval x ->
  SFleb zero (round x 3) = true /\ SFleb (round x 3) one = true.
Proof.
  destruct x as [s|s| |s m e]; cbn [unit_interval]; [|tauto|tauto|].
  - intros Hs. subst s. split; reflexivity.
  - intros (Hs & C & E & S). subst s.
    pose proof (canonical_bounds _ _ C) as (He & _).
    unfold round. change (10 ^ 3) with 1000.
    pose proof (round_half_even_bounds _ 1000 (magnitude_unit m e He S)) as [K0 K1].
    destruct (round_half_even (magnitude m e * inject_Z 1000)) as [|k|k] eqn:K.
    + split; reflexivity.
    + apply of_decimal_thousandths. lia.
    + lia.
Qed.

Lemma round_above (x : float) : above_one x -> SFleb (round x 3) one = false.
Proof.
  destruct x as [s|s| |s m e]; cbn [above_one]; [tauto| |tauto|].
  - intros Hs. subst s. reflexivity.
  - intros (Hs & C & S). subst s.
    pose proof (canonical_bounds _ _ C) as (He & _).
    unfold round. change (10 ^ 3) with 1000.
    pose proof (round_half_even_above _ 1001 (magnitude_above m e He S)) as K1.
    destruct (round_half_even (magnitude m e * inject_Z 1000)) as [|k|k] eqn:K;
      [lia| |lia].
    apply above_one_le, of_decimal_above. lia.
Qed.

(** The score. *)

Lemma SFcompare_defined (x y : float) :
  x <> S754_nan -> y <> S754_nan -> exists c, SFcompare x y = Some c.
Proof.
  destruct x, y; intros Hx Hy; try congruence; cbn [SFcompare];
    eexists; reflexivity.
Qed.

Lemma SFleb_false_lt (x y : float) :
  SFleb zero x = true -> SFleb x y = false -> y <> S754_nan -> SFltb y x = true.
Proof.
  intros H0 H1 Hy.
  assert (Hx : x <> S754_nan) by (intros E; subst x; discriminate H0).
  destruct (SFcompare_defined x y Hx Hy) as [c E].
  unfold SFleb, SFltb in *. rewrite (SFcompare_antisym x y), E.
  rewrite E in H1. destruct c; try discriminate H1. reflexivity.
Qed.

Lemma SFltb_not_le (x y : float) : SFltb y x = true -> SFleb x y = false.
Proof.
  unfold SFleb, SFltb. rewrite (SFcompare_antisym y x).
  destruct (SFcompare y x) as [[| |]|]; try discriminate; reflexivity.
Qed.

Lemma score_clamp (d : float) :
  is_double d = true -> SFleb zero d = true ->
  similarity_score d = Design.clamp (sub one d) zero one.
Proof.
  intros V H0. unfold similarity_score.
  destruct (SFleb d one) eqn:H1.
  - symmetry. apply clamp_unit, sub_one_unit; assumption.
  - symmetry. apply clamp_negative, sub_one_negative; [assumption|].
    apply SFleb_false_lt; [assumption | assumption | discriminate].
Qed.

Lemma score_unit (d : float) :
  is_double d = true -> SFleb zero d = true ->
  unit_interval (similarity_score d).
Proof.
  intros V H0. unfold similarity_score.
  destruct (SFleb d one) eqn:H1; [apply sub_one_unit; assumption | reflexivity].
Qed.

Lemma score_far (d : float) : SFltb one d = true -> similarity_score d = zero.
Proof.
  intros H. unfold similarity_score. rewrite (SFltb_not_le d one H). reflexivity.
Qed.

Lemma score_above (d : float) :
  is_double d = true -> SFleb d neg_milli = true ->
  SFleb (round (similarity_score d) 3) one = false.
Proof.
  intros V H. unfold similarity_score.
  assert (H1 : SFleb d one = true).
  { destruct d as [s|s| |s m e]; try discriminate H;
      destruct s; try discriminate H; reflexivity. }
  rewrite H1. apply round_above, sub_one_above; assumption.
Qed.

End Binary64.

(** ** Relevance scores *)

Section Scores.

Import VectorStore RAGPipeline.

Lemma in_zip {A B} (a : list A) (b : list B) x y :
  In (x, y) (zip a b) -> In x a /\ In y b.
Proof.
  revert b. induction a as [|x' a IH]; intros [|y' b]; simpl; try tauto.
  intros [[= -> ->]|H]; [tauto|]. apply IH in H. tauto.
Qed.

Lemma zip_lookup {A B} (a : list A) (b : list B) (k : nat) x y :
  zip a b !! k = Some (x, y) <-> a !! k = Some x /\ b !! k = Some y.
Proof.
  revert b k. induction a as [|x' a IH]; intros [|y' b] k; simpl.
  - split; [discriminate | intros [H _]; discriminate].
  - split; [discriminate | intros [H _]; discriminate].
  - split; [discriminate | intros [_ H]; destruct k; discriminate].
  - destruct k as [|k]; simpl; [|apply IH].
    split; [intros [= -> ->]; auto | intros [[= ->] [= ->]]; reflexivity].
Qed.

Lemma result_bind_ok {A B} (a : A) (k : A -> result B) : (Ok a ≫= k) = k a.
Proof. reflexivity. Qed.

Lemma build_context_head (search_results : SearchResults) docs mds :
  head (documents search_results) = Some docs ->
  head (metadatas search_results) = Some mds ->
  exists context, _build_context search_results = Ok context.
Proof.
  unfold _build_context.
  destruct (documents search_results) as [|docs' rows]; [discriminate|].
  destruct (metadatas search_results) as [|mds' rows']; [discriminate|].
  intros _ _. destruct docs'; cbn; eauto.
Qed.

(** The sources of a result with a first row under every key. *)
Lemma extract_sources_head (search_results : SearchResults) docs mds dists :
  head (documents search_results) = Some docs ->
  head (metadatas search_results) = Some mds ->
  distance_row search_results docs = Ok dists ->
  extract_sources search_results
  = Ok (List.map (fun '(doc, (md, distance)) => source_of doc md distance)
          (zip docs (zip mds dists))).
Proof.
  unfold extract_sources.
  destruct (documents search_results) as [|docs' rows]; [discriminate|].
  intros [= ->].
  destruct (metadatas search_results) as [|mds' rows']; [discriminate|].
  intros [= ->] Hrow.
  destruct docs as [|doc docs']; [reflexivity|].
  cbn [first]. rewrite result_bind_ok, Hrow. reflexivity.
Qed.

(** C4: when the search results have a first row of documents, of
    metadata and of distances, and the distance [d] of the retrieved chunk
    [k] is a double with [0 <= d], [generate_response] returns a response
    whose source [k] is the one computed from document, metadata and
    distance [k]; its relevance score is [clamp(1.0 - d, 0.0, 1.0)] rounded
    to three decimals, lies between 0.0 and 1.0, and is 0.0 when
    [d > 1.0].  Subtraction and rounding are those of binary64. *)
Theorem relevance_score_clamped (self : RAGPipeline.t) (now q : str)
        (search_results : SearchResults) (docs : list str)
        (mds : list Metadata) (dists : list Float64.float)
        (k : nat) (doc : str) (md : Metadata) (d : Float64.float) :
  head (documents search_results) = Some docs ->
  head (metadatas search_results) = Some mds ->
  distance_row search_results docs = Ok dists ->
  docs !! k = Some doc -> mds !! k = Some md -> dists !! k = Some d ->
  Float64.is_double d = true ->
  SFleb Float64.zero d = true ->
  exists r s,
    generate_response self now q search_results = Ok r
    /\ sources r !! k = Some s
    /\ s = source_of doc md d
    /\ relevance_score s
       = round (Design.clamp (Float64.sub Float64.one d)
                             Float64.zero Float64.one) 3
    /\ SFleb Float64.zero (relevance_score s) = true
    /\ SFleb (relevance_score s) Float64.one = true
    /\ (SFltb Float64.one d = true -> relevance_score s = Float64.zero).
Proof.
  intros Hdocs Hmds Hrow Hd Hm Hdist Hvalid Hnonneg.
  destruct (build_context_head search_results docs mds Hdocs Hmds)
    as [context Hc].
  pose proof (extract_sources_head search_results docs mds dists
                Hdocs Hmds Hrow) as Hs.
  unfold generate_response. rewrite Hc, result_bind_ok, Hs.
  eexists. exists (source_of doc md d). split; [reflexivity|]. cbn [sources].
  split.
  { change (List.map ?f ?l) with (f <$> l). rewrite list_lookup_fmap.
    assert (E : zip docs (zip mds dists) !! k = Some (doc, (md, d))).
    { apply zip_lookup. split; [exact Hd|]. apply zip_lookup. auto. }
    rewrite E. reflexivity. }
  split; [reflexivity|]. cbn [relevance_score source_of].
  split; [rewrite (score_clamp d Hvalid Hnonneg); reflexivity|].
  destruct (round_unit _ (score_unit d Hvalid Hnonneg)) as [H0 H1].
  split; [exact H0|]. split; [exact H1|].
  intros Hfar. rewrite (score_far d Hfar). reflexivity.
Qed.

End Scores.

Lemma relevance_score_clamped_witness :
  exists r s,
    RAGPipeline.generate_response Sample.pipeline_up (lit "now")
      (lit "Is it in stock?") Sample.results = Ok r
    /\ RAGPipeline.sources r !! 1%nat = Some s
    /\ s = RAGPipeline.source_of (lit "C.") (Sample.metadata_of (lit "D2") 0 1)
             (Float64.of_decimal false 3 2)
    /\ RAGPipeline.relevance_score s
       = RAGPipeline.round
           (Design.clamp
              (Float64.sub Float64.one (Float64.of_decimal false 3 2))
              Float64.zero Float64.one) 3
    /\ SFleb Float64.zero (RAGPipeline.relevance_score s) = true
    /\ SFleb (RAGPipeline.relevance_score s) Float64.one = true
    /\ (SFltb Float64.one (Float64.of_decimal false 3 2) = true ->
        RAGPipeline.relevance_score s = Float64.zero).
Proof.
  apply (relevance_score_clamped Sample.pipeline_up (lit "now")
           (lit "Is it in stock?") Sample.results
           [lit "A. B"; lit "C."]
           [Sample.metadata_of (lit "D1") 0 2; Sample.metadata_of (lit "D2") 0 1]
           [Float64.of_decimal false 1 4; Float64.of_decimal false 3 2]
           1%nat (lit "C.") (Sample.metadata_of (lit "D2") 0 1)
           (Float64.of_decimal false 3 2));
    reflexivity.
Defined.

(** ** Generation *)

Section Generation.

Import VectorStore RAGPipeline.

Lemma build_context_one_row (search_results : SearchResults) :
  one_row_each search_results = true ->
  exists context, _build_context search_results = Ok context.
Proof.
  unfold one_row_each, _build_context.
  destruct (documents search_results) as [|docs [|]]; try discriminate.
  destruct (metadatas search_results) as [|mds [|]]; try discriminate.
  intros _. destruct docs; cbn; eauto.
Qed.

Lemma extract_sources_one_row (search_results : SearchResults) :
  one_row_each search_results = true ->
  exists srcs, extract_sources search_results = Ok srcs.
Proof.
  unfold one_row_each, extract_sources, distance_row.
  destruct (documents search_results) as [|docs [|]]; try discriminate.
  destruct (metadatas search_results) as [|mds [|]]; try discriminate.
  destruct (distances search_results) as [[|row [|]]|]; try discriminate;
    intros _; destruct docs; cbn -[zip]; eauto.
Qed.

Lemma result_bind_raise {A B} (e : exn) (k : A -> result B) :
  (Raise e ≫= k) = Raise e.
Proof. reflexivity. Qed.

(** C6: whatever the backend does, [generate_response] yields the same
    sources, query and timestamp (or raises the same error, which only
    ill-shaped search results cause); over search results of the shape the
    index returns it always returns a response, and when the backend call
    raises, the answer of that response is the text
    "Error generating response: " followed by the error message. *)
Theorem generate_response_degrades (self : RAGPipeline.t) (now q : str)
        (search_results : SearchResults) :
  (forall other : RAGPipeline.t,
     match generate_response self now q search_results,
           generate_response other now q search_results with
     | Ok r, Ok r' =>
         sources r = sources r' /\ query r = query r'
         /\ timestamp r = timestamp r'
     | Raise e, Raise e' => e = e'
     | _, _ => False
     end)
  /\ (one_row_each search_results = true ->
      exists context srcs,
        _build_context search_results = Ok context
        /\ extract_sources search_results = Ok srcs
        /\ (forall e,
              client_generate (client self) (model_name self)
                (_build_prompt q context) generate_options = Raise e ->
              generate_response self now q search_results
              = Ok {| answer := lit "Error generating response: " ++ str_of_exn e;
                      sources := srcs; query := q; timestamp := now |})
        /\ (forall text,
              client_generate (client self) (model_name self)
                (_build_prompt q context) generate_options = Ok text ->
              generate_response self now q search_results
              = Ok {| answer := strip text;
                      sources := srcs; query := q; timestamp := now |})).
Proof.
  split.
  - intros other. unfold generate_response.
    destruct (_build_context search_results) as [context|e];
      [|rewrite !result_bind_raise; reflexivity].
    rewrite !result_bind_ok.
    destruct (extract_sources search_results) as [srcs|e];
      [|rewrite !result_bind_raise; reflexivity].
    rewrite !result_bind_ok. cbn [sources query timestamp]. auto.
  - intros Hshape.
    destruct (build_context_one_row _ Hshape) as [context Hc].
    destruct (extract_sources_one_row _ Hshape) as [srcs Hs].
    exists context, srcs. split; [exact Hc|]. split; [exact Hs|].
    split; intros x Hx; unfold generate_response;
      rewrite Hc, result_bind_ok, Hx, Hs; reflexivity.
Qed.

Lemma generate_response_degrades_witness :
  exists r,
    generate_response Sample.pipeline_down (lit "now") (lit "Is it in stock?")
      Sample.results = Ok r
    /\ answer r = lit "Error generating response: connection refused"
    /\ extract_sources Sample.results = Ok (sources r)
    /\ query r = lit "Is it in stock?"
    /\ timestamp r = lit "now".
Proof.
  destruct (proj2 (generate_response_degrades Sample.pipeline_down (lit "now")
                     (lit "Is it in stock?") Sample.results) eq_refl)
    as (context & srcs & Hc & Hs & Hfail & _).
  eexists. split; [apply Hfail; reflexivity|].
  split; [reflexivity|]. split; [exact Hs|]. split; reflexivity.
Defined.

End Generation.

(** ** Availability check *)

Section Availability.

Import RAGPipeline.

Lemma startswith_spec (s p : str) :
  startswith s p = true <-> exists post, s = p ++ post.
Proof.
  revert s. induction p as [|a p IH]; intros s.
  - split; [intros _; exists s; reflexivity | intros _; destruct s; reflexivity].
  - destruct s as [|c s]; simpl;
      [split; [discriminate | intros [post H]; discriminate]|].
    rewrite andb_true_iff, N.eqb_eq, IH. split.
    + intros [-> [post ->]]. exists post. reflexivity.
    + intros [post [= -> ->]]. split; [reflexivity | exists post; reflexivity].
Qed.

Lemma contains_spec (hay needle : str) :
  contains hay needle = true
  <-> exists pre post, hay = pre ++ needle ++ post.
Proof.
  induction hay as [|c hay IH]; cbn [contains];
    rewrite orb_true_iff, startswith_spec.
  - split.
    + intros [[post H]|H]; [exists [], post; exact H | discriminate].
    + intros (pre & post & H). left.
      destruct pre; [exists post; exact H | discriminate].
  - rewrite IH. split.
    + intros [[post H]|(pre & post & ->)].
      * exists [], post. exact H.
      * exists (c :: pre), post. reflexivity.
    + intros ([|c' pre] & post & H).
      * left. exists post. exact H.
      * right. injection H as -> ->. exists pre, post. reflexivity.
Qed.

Lemma startswith_contains (s p : str) :
  startswith s p = true -> contains s p = true.
Proof.
  intros H. destruct s; cbn [contains]; rewrite H; reflexivity.
Qed.

Lemma startswith_refl (s : str) : startswith s s = true.
Proof. apply startswith_spec. exists []. symmetry; apply app_nil_r. Qed.

Lemma model_available_spec (self : RAGPipeline.t) (names : list str) :
  model_available self names = true
  <-> exists n, In n names
                /\ exists pre post, n = pre ++ model_name self ++ post.
Proof.
  unfold model_available. rewrite existsb_exists.
  split; intros (n & Hn & H); exists n; (split; [exact Hn|]).
  - apply contains_spec. apply orb_true_iff in H as [H|H];
      [exact H | apply startswith_contains; exact H].
  - apply orb_true_iff. left. apply contains_spec. exact H.
Qed.

Lemma check_ollama_available_listed (self : RAGPipeline.t) reply names :
  client_list (client self) = Ok reply ->
  model_names (default [] (models reply)) = Ok names ->
  check_ollama_available self = model_available self names.
Proof.
  intros Hl Hn. unfold check_ollama_available.
  rewrite Hl, result_bind_ok, Hn. reflexivity.
Qed.

(** C8 (as stated, refuted): with the configured model "llama" and a
    backend that lists only "codellama:7b", the check reports the model as
    present although no listed name equals "llama" or starts with it. *)
Lemma check_ollama_available_beyond_prefix :
  model_name Sample.pipeline_up = lit "llama"
  /\ (client_list (client Sample.pipeline_up) ≫= fun reply =>
        model_names (default [] (models reply)))
     = Ok [lit "codellama:7b"]
  /\ check_ollama_available Sample.pipeline_up = true
  /\ ~ (exists n, In n [lit "codellama:7b"]
                  /\ (n = lit "llama" \/ startswith n (lit "llama") = true)).
Proof.
  split; [reflexivity|]. split; [reflexivity|]. split; [reflexivity|].
  intros (n & [<-|[]] & [H|H]); discriminate H.
Qed.

(** C8 (amended): when the backend lists its models, the check reports the
    configured model as present if and only if some listed name contains
    the configured name as a substring; a listed name equal to the
    configured name or starting with it is such a name; when the backend
    call raises, the check returns false. *)
Theorem check_ollama_available_substring (self : RAGPipeline.t) :
  (forall reply names,
     client_list (client self) = Ok reply ->
     model_names (default [] (models reply)) = Ok names ->
     (check_ollama_available self = true
      <-> exists n, In n names
                    /\ exists pre post, n = pre ++ model_name self ++ post)
     /\ forall n, In n names ->
          n = model_name self \/ startswith n (model_name self) = true ->
          check_ollama_available self = true)
  /\ (forall e, client_list (client self) = Raise e ->
        check_ollama_available self = false).
Proof.
  split.
  - intros reply names Hl Hn.
    rewrite (check_ollama_available_listed self reply names Hl Hn).
    split; [apply model_available_spec|].
    intros n Hin Hmatch. unfold model_available. apply existsb_exists.
    exists n. split; [exact Hin|]. apply orb_true_iff. right.
    destruct Hmatch as [->|H]; [apply startswith_refl | exact H].
  - intros e He. unfold check_ollama_available. rewrite He. reflexivity.
Qed.

Lemma check_ollama_available_substring_witness :
  (check_ollama_available Sample.pipeline_up = true
   <-> exists n, In n [lit "codellama:7b"]
                 /\ exists pre post, n = pre ++ lit "llama" ++ post)
  /\ check_ollama_available Sample.pipeline_down = false.
Proof.
  split.
  - apply (proj1 (check_ollama_available_substring Sample.pipeline_up)
             {| models := Some [{| name := Some (lit "codellama:7b") |}] |}
             [lit "codellama:7b"]); reflexivity.
  - apply (proj2 (check_ollama_available_substring Sample.pipeline_down)
             (ExternalError (lit "connection refused"))).
    reflexivity.
Defined.

End Availability.

(** ** The query route *)

Section Query.

Import VectorStore RAGPipeline QueryRoute.

(** C1 (as stated, refuted): asked against the empty collection the route
    raises; it returns no response at all. *)
Lemma query_documents_empty_index_raises :
  get_chunk_count (∅ : gmap (list N) Entry) = 0%Z
  /\ query_documents Sample.services Sample.pipeline_up ∅ Sample.request
     = Raise (HTTPException 400 no_documents_detail)
  /\ ~ exists r, query_documents Sample.services Sample.pipeline_up ∅
                   Sample.request = Ok r.
Proof.
  split; [reflexivity|]. split; [reflexivity|].
  intros [r H]. discriminate H.
Qed.

(** C1 (amended): for every query asked against a collection holding zero
    chunks, whatever the services and the backend, [query_documents]
    raises [HTTPException] with status 400 and the detail "No documents
    have been indexed yet. Please upload documents first."; it returns no
    response. *)
Theorem query_documents_empty_index (services : Services)
        (rag : RAGPipeline.t) (collection : gmap (list N) Entry)
        (request : QueryRequest) :
  get_chunk_count collection = 0%Z ->
  query_documents services rag collection request
  = Raise (HTTPException 400 no_documents_detail)
  /\ no_documents_detail
     = lit "No documents have been indexed yet. Please upload documents first.".
Proof.
  intros Hzero. split; [|reflexivity].
  unfold query_documents, query_body. rewrite Hzero. reflexivity.
Qed.

Lemma query_documents_empty_index_witness :
  query_documents Sample.services Sample.pipeline_down ∅ Sample.request
  = Raise (HTTPException 400 no_documents_detail)
  /\ no_documents_detail
     = lit "No documents have been indexed yet. Please upload documents first.".
Proof.
  apply (query_documents_empty_index Sample.services Sample.pipeline_down ∅
           Sample.request).
  reflexivity.
Defined.

End Query.

(** * Further properties *)

(** ** More on trimming and slicing *)

Section TrimmingMore.

Lemma lstrip_blank (s : str) :
  (forall x, In x s -> isspace x = true) -> lstrip s = [].
Proof.
  induction s as [|c s IH]; intros H; simpl; [reflexivity|].
  rewrite (H c) by (left; reflexivity). apply IH.
  intros x Hx. apply H. right; exact Hx.
Qed.

Lemma strip_blank (s : str) :
  (forall x, In x s -> isspace x = true) -> strip s = [].
Proof.
  intros H. unfold strip. rewrite (lstrip_blank s H). reflexivity.
Qed.

Lemma lstrip_keeps (s : str) x :
  In x s -> isspace x = false -> In x (lstrip s).
Proof.
  intros Hin Hx. induction s as [|c s IH]; simpl; [destruct Hin|].
  destruct (isspace c) eqn:E; [|exact Hin].
  destruct Hin as [->|Hin]; [congruence | auto].
Qed.

Lemma strip_keeps (s : str) x :
  In x s -> isspace x = false -> In x (strip s).
Proof.
  intros Hin Hx. unfold strip, rstrip.
  apply in_rev. rewrite rev_involutive.
  apply lstrip_keeps; [|exact Hx].
  apply in_rev. rewrite rev_involutive.
  apply lstrip_keeps; assumption.
Qed.

(** What [strip] removes is whitespace only. *)
Lemma lstrip_removed (s : str) :
  exists p, s = p ++ lstrip s /\ forall x, In x p -> isspace x = true.
Proof.
  induction s as [|c s (p & Hp & Hws)]; simpl.
  - exists []. split; [reflexivity | intros x []].
  - destruct (isspace c) eqn:E.
    + exists (c :: p). split; [simpl; congruence|].
      intros x [<-|Hx]; auto.
    + exists []. split; [reflexivity | intros x []].
Qed.

Lemma strip_removed (s : str) :
  exists p q, s = p ++ strip s ++ q
              /\ (forall x, In x p -> isspace x = true)
              /\ (forall x, In x q -> isspace x = true).
Proof.
  destruct (lstrip_removed s) as (p & Hp & Hpw).
  destruct (lstrip_removed (rev (lstrip s))) as (q & Hq & Hqw).
  exists p, (rev q). split; [|split].
  - rewrite Hp at 1. f_equal. unfold strip, rstrip.
    rewrite <- rev_app_distr, <- Hq. symmetry; apply rev_involutive.
  - exact Hpw.
  - intros x Hx. apply Hqw. apply in_rev. exact Hx.
Qed.

Lemma strip_trimmed (s : str) :
  (forall x, head s = Some x -> isspace x = false) ->
  (forall x, last s = Some x -> isspace x = false) ->
  strip s = s.
Proof.
  intros Hh Hl.
  assert (L : forall t : str,
             (forall x, head t = Some x -> isspace x = false) -> lstrip t = t).
  { intros [|c t] H; simpl; [reflexivity|].
    rewrite (H c) by reflexivity. reflexivity. }
  unfold strip, rstrip. rewrite (L s Hh).
  rewrite L; [apply rev_involutive|].
  intros x Hx. apply Hl.
  destruct s as [|c s] using rev_ind; [discriminate|].
  rewrite rev_app_distr in Hx. simpl in Hx. injection Hx as ->.
  apply last_snoc.
Qed.

Lemma slice_substring {A} (s : list A) (lo hi : Z) :
  exists pre post, s = pre ++ slice s lo hi ++ post.
Proof.
  unfold slice.
  set (a := Z.to_nat (slice_index (Z.of_nat (length s)) lo)).
  set (k := Z.to_nat _).
  exists (firstn a s), (skipn k (skipn a s)).
  rewrite (firstn_skipn k (skipn a s)). symmetry; apply firstn_skipn.
Qed.

Lemma slice_whole {A} (s : list A) (hi : Z) :
  (Z.of_nat (length s) <= hi)%Z -> slice s 0 hi = s.
Proof.
  intros H. unfold slice, slice_index. simpl.
  destruct (Z.ltb_spec hi 0); [lia|].
  rewrite Z.min_r by lia. rewrite Z.min_l by lia. simpl.
  apply firstn_all2. lia.
Qed.

Lemma slice_lookup {A} (s : list A) (i size : Z) (p : nat) x :
  s !! p = Some x ->
  (0 <= i <= Z.of_nat p)%Z -> (Z.of_nat p < i + size)%Z ->
  In x (slice s i (i + size)).
Proof.
  intros Hp Hi Hsz. pose proof (lookup_lt_Some _ _ _ Hp) as Hlen.
  apply list_elem_of_In. apply list_elem_of_lookup.
  exists (p - Z.to_nat i)%nat. unfold slice, slice_index.
  destruct (Z.ltb_spec i 0); [lia|].
  destruct (Z.ltb_spec (i + size) 0); [lia|].
  rewrite lookup_take_lt by lia.
  rewrite lookup_drop. rewrite <- Hp. f_equal. lia.
Qed.

End TrimmingMore.

(** ** More on the chunker *)

Section ChunkerMore.

Import DocumentProcessor.

Lemma visited_shape (self : DocumentProcessor.t) (n step : Z) :
  forall (count : nat) (start : Z),
    (1 <= count)%nat ->
    (n <= start + (Z.of_nat count - 1) * step + chunk_size self)%Z ->
    exists m : nat,
      (1 <= m <= count)%nat
      /\ visited self n (range_from count start step) = range_from m start step
      /\ (n <= start + (Z.of_nat m - 1) * step + chunk_size self)%Z
      /\ forall k : nat, (k < m - 1)%nat ->
           (start + Z.of_nat k * step + chunk_size self < n)%Z.
Proof.
  induction count as [|c IH]; intros start Hc Hend; [lia|].
  cbn [range_from visited].
  destruct (Z.geb_spec (start + chunk_size self) n) as [Hstop|Hgo].
  - exists 1%nat. split; [lia|]. split; [reflexivity|]. split; [lia|].
    intros k Hk. lia.
  - assert (Hc1 : (1 <= c)%nat) by (destruct c; lia).
    destruct (IH (start + step)%Z Hc1) as (m & Hm & Hv & Hlast & Hbefore); [lia|].
    exists (S m). split; [lia|]. split; [simpl; congruence|]. split; [lia|].
    intros [|k] Hk; [lia|].
    specialize (Hbefore k ltac:(lia)). lia.
Qed.

Lemma visit_length (self : DocumentProcessor.t) (text : str) (i : Z) :
  (length (visit self text [] i) <= 1)%nat.
Proof. unfold visit. destruct (truthy _); simpl; lia. Qed.

Lemma flat_map_visit_length (self : DocumentProcessor.t) (text : str) offsets :
  (length (flat_map (visit self text []) offsets) <= length offsets)%nat.
Proof.
  induction offsets as [|i offsets IH]; simpl; [lia|].
  rewrite length_app. pose proof (visit_length self text i). lia.
Qed.

Lemma length_range_from (count : nat) (start step : Z) :
  length (range_from count start step) = count.
Proof.
  revert start. induction count as [|c IH]; intros start; simpl; [reflexivity|].
  f_equal. apply IH.
Qed.

(** For a valid configuration the loop runs on a forward range that
    reaches the end of the text. *)
Lemma window_offsets_valid (self : DocumentProcessor.t) (text : str) :
  text <> [] ->
  (0 < chunk_size self)%Z ->
  (0 <= chunk_overlap self < chunk_size self)%Z ->
  exists count : nat,
    (1 <= count <= length text)%nat
    /\ (Z.of_nat (length text)
        <= Z.of_nat count * (chunk_size self - chunk_overlap self))%Z
    /\ window_offsets self text
       = Ok (visited self (Z.of_nat (length text))
               (range_from count 0 (chunk_size self - chunk_overlap self))).
Proof.
  intros Hne Hsize Hov.
  set (n := Z.of_nat (length text)).
  set (step := (chunk_size self - chunk_overlap self)%Z).
  assert (Hn : (0 < n)%Z) by (subst n; destruct text; [congruence | simpl; lia]).
  destruct (range_length_forward n step) as (Hc1 & Hc2 & Hc3);
    [lia | subst step; lia |].
  exists (range_length 0 n step). split; [subst n; lia|]. split; [exact Hc2|].
  unfold window_offsets. destruct text as [|c text']; [congruence|].
  change (negb (truthy (c :: text'))) with false. cbv iota.
  fold n step. unfold range.
  destruct (Z.eqb_spec step 0); [subst step; lia | reflexivity].
Qed.

Lemma chunk_text_nil_characterised (self : DocumentProcessor.t) (text : str) :
  (0 < chunk_size self)%Z ->
  (0 <= chunk_overlap self < chunk_size self)%Z ->
  exists chunks,
    chunk_text self text = Ok chunks
    /\ (chunks = [] <-> forall x, In x text -> isspace x = true).
Proof.
  intros Hsize Hov.
  destruct text as [|c0 text'].
  { exists []. split; [reflexivity|]. split; [intros _ x [] | reflexivity]. }
  set (text := c0 :: text').
  destruct (window_offsets_valid self text) as (count & Hcount & Hspan & Hoff);
    [discriminate | exact Hsize | exact Hov |].
  rewrite chunk_text_window_offsets, Hoff, result_bind_ok.
  eexists. split; [reflexivity|]. split.
  - intros Hnil x Hx.
    destruct (isspace x) eqn:E; [reflexivity | exfalso].
    apply list_elem_of_In, list_elem_of_lookup in Hx as [p Hp].
    pose proof (lookup_lt_Some _ _ _ Hp) as Hlt.
    destruct (visited_cover self (Z.of_nat (length text))
                (chunk_size self - chunk_overlap self) ltac:(lia)
                count 0%Z (Z.of_nat p)) as (i & Hi & Hwin); [lia | lia |].
    assert (Hi0 : (0 <= i)%Z).
    { apply visited_incl in Hi. apply range_from_ge in Hi; lia. }
    pose proof (slice_lookup text i (chunk_size self) p x Hp
                  ltac:(lia) ltac:(lia)) as Hslice.
    pose proof (strip_keeps _ x Hslice E) as Hstrip.
    assert (Hin : In (strip (slice text i (i + chunk_size self)))
                     (flat_map (visit self text [])
                        (visited self (Z.of_nat (length text))
                           (range_from count 0
                              (chunk_size self - chunk_overlap self))))).
    { apply in_flat_map. exists i. split; [exact Hi|].
      unfold visit. destruct (strip _); [destruct Hstrip | left; reflexivity]. }
    rewrite Hnil in Hin. destruct Hin.
  - intros Hblank.
    destruct (flat_map _ _) as [|c chunks] eqn:E; [reflexivity | exfalso].
    assert (Hc : In c (c :: chunks)) by (left; reflexivity).
    rewrite <- E in Hc. apply in_flat_map in Hc as (i & _ & Hc).
    apply visit_emits in Hc as [-> Hne]. apply Hne. apply strip_blank.
    intros x Hx. apply Hblank.
    destruct (slice_substring text i (i + chunk_size self)) as (pre & post & ->).
    apply in_or_app. right. apply in_or_app. left. exact Hx.
Qed.

(** X1: for a valid configuration, [chunk_text] returns no chunk exactly
    when every character of the text is whitespace. *)
Theorem chunk_text_empty_iff_blank (self : DocumentProcessor.t) (text : str) :
  (0 < chunk_size self)%Z ->
  (0 <= chunk_overlap self < chunk_size self)%Z ->
  exists chunks,
    chunk_text self text = Ok chunks
    /\ (chunks = [] <-> forall x, In x text -> isspace x = true).
Proof. apply chunk_text_nil_characterised. Qed.

Lemma chunk_text_empty_iff_blank_witness :
  exists chunks,
    chunk_text {| chunk_size := 4; chunk_overlap := 1 |} (lit "    A    ")
    = Ok chunks
    /\ (chunks = [] <-> forall x, In x (lit "    A    ") -> isspace x = true).
Proof.
  apply (chunk_text_empty_iff_blank
           {| chunk_size := 4; chunk_overlap := 1 |} (lit "    A    "));
    simpl; lia.
Defined.

(** X2: for a valid configuration, a text no longer than [chunk_size] is
    returned as one chunk, the trimmed text, or as no chunk at all when
    nothing is left after trimming. *)
Theorem chunk_text_short_text (self : DocumentProcessor.t) (text : str) :
  (0 < chunk_size self)%Z ->
  (0 <= chunk_overlap self < chunk_size self)%Z ->
  (Z.of_nat (length text) <= chunk_size self)%Z ->
  chunk_text self text
  = Ok (if truthy (strip text) then [strip text] else []).
Proof.
  intros Hsize Hov Hshort.
  destruct text as [|c0 text']; [reflexivity|].
  set (text := c0 :: text') in *.
  destruct (window_offsets_valid self text) as (count & Hcount & Hspan & Hoff);
    [discriminate | exact Hsize | exact Hov |].
  rewrite chunk_text_window_offsets, Hoff, result_bind_ok.
  destruct count as [|c]; [lia|]. cbn [range_from visited].
  destruct (Z.geb_spec (0 + chunk_size self) (Z.of_nat (length text))); [|lia].
  cbn [flat_map]. rewrite app_nil_r. unfold visit.
  rewrite slice_whole by lia. reflexivity.
Qed.

Lemma chunk_text_short_text_witness :
  chunk_text {| chunk_size := 500; chunk_overlap := 100 |} (lit " In stock. ")
  = Ok (if truthy (strip (lit " In stock. ")) then [strip (lit " In stock. ")]
        else []).
Proof.
  apply (chunk_text_short_text
           {| chunk_size := 500; chunk_overlap := 100 |} (lit " In stock. "));
    simpl; lia.
Defined.

(** X3: whatever the configuration, every chunk [chunk_text] returns is a
    contiguous piece of the text. *)
Theorem chunk_text_chunks_substrings (self : DocumentProcessor.t) (text : str)
        (chunks : list str) :
  chunk_text self text = Ok chunks ->
  forall c, In c chunks -> exists pre post, text = pre ++ c ++ post.
Proof.
  rewrite chunk_text_window_offsets.
  destruct (window_offsets self text) as [offsets|e]; [|discriminate].
  rewrite result_bind_ok. intros [= <-] c Hc.
  apply in_flat_map in Hc as (i & _ & Hc).
  apply visit_emits in Hc as [-> _].
  destruct (slice_substring text i (i + chunk_size self)) as (pre & post & Ht).
  destruct (strip_removed (slice text i (i + chunk_size self)))
    as (p & q & Hs & _ & _).
  exists (pre ++ p), (q ++ post).
  rewrite Ht at 1. rewrite Hs at 1. rewrite <- !app_assoc. reflexivity.
Qed.

Lemma chunk_text_chunks_substrings_witness :
  exists pre post, lit "A. B. C." = pre ++ lit "B. C" ++ post.
Proof.
  apply (chunk_text_chunks_substrings
           {| chunk_size := 4; chunk_overlap := 1 |} (lit "A. B. C.")
           [lit "A. B"; lit "B. C"; lit "C."]);
    [reflexivity | right; left; reflexivity].
Defined.

(** X4: for a non-empty text and a valid configuration, the windows start
    at [0, step, 2 * step, ...] with [step = size - overlap]; the last
    window is the first one that reaches the end of the text; there are at
    most [len(text)] windows and no more chunks than windows. *)
Theorem window_offsets_arithmetic (self : DocumentProcessor.t) (text : str) :
  text <> [] ->
  (0 < chunk_size self)%Z ->
  (0 <= chunk_overlap self < chunk_size self)%Z ->
  exists (m : nat) (chunks : list str),
    window_offsets self text
    = Ok (range_from m 0 (chunk_size self - chunk_overlap self))
    /\ chunk_text self text = Ok chunks
    /\ (1 <= m <= length text)%nat
    /\ (length chunks <= m)%nat
    /\ (Z.of_nat (length text)
        <= (Z.of_nat m - 1) * (chunk_size self - chunk_overlap self)
           + chunk_size self)%Z
    /\ forall k : nat, (k < m - 1)%nat ->
         (Z.of_nat k * (chunk_size self - chunk_overlap self)
          + chunk_size self < Z.of_nat (length text))%Z.
Proof.
  intros Hne Hsize Hov.
  destruct (window_offsets_valid self text Hne Hsize Hov)
    as (count & Hcount & Hspan & Hoff).
  destruct (visited_shape self (Z.of_nat (length text))
              (chunk_size self - chunk_overlap self) count 0%Z)
    as (m & Hm & Hv & Hlast & Hbefore); [lia | nia |].
  rewrite chunk_text_window_offsets, Hoff, result_bind_ok, Hv.
  exists m. eexists. split; [reflexivity|]. split; [reflexivity|].
  split; [lia|]. split.
  - pose proof (flat_map_visit_length self text
                  (range_from m 0 (chunk_size self - chunk_overlap self))) as H.
    rewrite length_range_from in H. exact H.
  - split; [lia|]. intros k Hk. specialize (Hbefore k Hk). lia.
Qed.

Lemma window_offsets_arithmetic_witness :
  exists (m : nat) (chunks : list str),
    window_offsets {| chunk_size := 4; chunk_overlap := 1 |} (lit "A. B. C.")
    = Ok (range_from m 0 (4 - 1))
    /\ chunk_text {| chunk_size := 4; chunk_overlap := 1 |} (lit "A. B. C.")
       = Ok chunks
    /\ (1 <= m <= length (lit "A. B. C."))%nat
    /\ (length chunks <= m)%nat
    /\ (Z.of_nat (length (lit "A. B. C.")) <= (Z.of_nat m - 1) * (4 - 1) + 4)%Z
    /\ forall k : nat, (k < m - 1)%nat ->
         (Z.of_nat k * (4 - 1) + 4 < Z.of_nat (length (lit "A. B. C.")))%Z.
Proof.
  apply (window_offsets_arithmetic
           {| chunk_size := 4; chunk_overlap := 1 |} (lit "A. B. C."));
    [discriminate | simpl; lia | simpl; lia].
Defined.

End ChunkerMore.

(** ** Extraction and [process_document] *)

Section ExtractionProps.

Import DocumentProcessor Extraction.

Lemma strip_idempotent (s : str) : strip (strip s) = strip s.
Proof. apply strip_trimmed; [apply strip_head | apply strip_last]. Qed.

(** X5: [extract_text] raises nothing but [ValueError], and the text it
    returns is trimmed: stripping it again changes nothing. *)
Theorem extract_text_outcomes (files : Files) (path : str) :
  match extract_text files path with
  | Ok text => strip text = text
  | Raise e => exists msg, e = ValueError msg
  end.
Proof.
  unfold extract_text, _extract_from_pdf, _extract_from_text.
  destruct (bool_decide _).
  - destruct (pdf_pages files path); [apply strip_idempotent | eauto].
  - destruct (bool_decide _); [|eauto].
    destruct (read_text files path); [apply strip_idempotent | eauto].
Qed.

(** A trimmed text is blank only when it is empty. *)
Lemma trimmed_blank_nil (text : str) :
  strip text = text ->
  (forall x, In x text -> isspace x = true) -> text = [].
Proof.
  intros Ht Hblank. rewrite <- Ht. apply strip_blank. exact Hblank.
Qed.

(** X6: for a valid configuration, [process_document] fails exactly when
    extraction fails, with the same error; otherwise it returns the chunks
    of the extracted text together with metadata whose [chunk_count] is
    their number, and there is no chunk exactly when the extracted text is
    empty. *)
Theorem process_document_outcomes (self : DocumentProcessor.t) (files : Files)
        (now path doc_id name : str) :
  (0 < chunk_size self)%Z ->
  (0 <= chunk_overlap self < chunk_size self)%Z ->
  match extract_text files path with
  | Raise e => process_document self files now path doc_id name = Raise e
  | Ok text =>
      exists chunks,
        chunk_text self text = Ok chunks
        /\ process_document self files now path doc_id name
           = Ok (chunks,
                 {| document_id := doc_id; filename := name;
                    chunk_count := Z.of_nat (length chunks);
                    upload_time := now; file_path := path |})
        /\ (chunks = [] <-> text = [])
  end.
Proof.
  intros Hsize Hov. unfold process_document.
  pose proof (extract_text_outcomes files path) as Hx.
  destruct (extract_text files path) as [text|e]; [|reflexivity].
  destruct (chunk_text_nil_characterised self text Hsize Hov)
    as (chunks & Hc & Hnil).
  exists chunks. split; [exact Hc|].
  rewrite result_bind_ok, Hc, result_bind_ok. split; [reflexivity|].
  rewrite Hnil. split.
  - apply trimmed_blank_nil. exact Hx.
  - intros -> x [].
Qed.

Lemma process_document_outcomes_witness :
  exists chunks,
    chunk_text {| chunk_size := 4; chunk_overlap := 1 |} (lit "A. B. C.")
    = Ok chunks
    /\ process_document {| chunk_size := 4; chunk_overlap := 1 |}
         SampleFiles.files (lit "now") (lit "uploads/d1.txt") (lit "d1")
         (lit "notes.txt")
       = Ok (chunks,
             {| document_id := lit "d1"; filename := lit "notes.txt";
                chunk_count := Z.of_nat (length chunks);
                upload_time := lit "now"; file_path := lit "uploads/d1.txt" |})
    /\ (chunks = [] <-> lit "A. B. C." = []).
Proof.
  apply (process_document_outcomes {| chunk_size := 4; chunk_overlap := 1 |}
           SampleFiles.files (lit "now") (lit "uploads/d1.txt") (lit "d1")
           (lit "notes.txt")); simpl; lia.
Defined.

End ExtractionProps.

(** ** Insertion into the index *)

Section IndexInsert.

Import VectorStore Index.

Implicit Types (collection : gmap (list N) Entry) (d id : list N).

Lemma lit_inj (s t : string) : lit s = lit t -> s = t.
Proof.
  unfold lit. intros H.
  rewrite <- (string_of_list_ascii_of_string s),
          <- (string_of_list_ascii_of_string t).
  f_equal. revert H.
  generalize (list_ascii_of_string s) (list_ascii_of_string t).
  induction l as [|a l IH]; intros [|b l']; simpl; try discriminate;
    [reflexivity|].
  intros [= Hab Hl]. f_equal; [|apply IH; exact Hl].
  rewrite <- (ascii_N_embedding a), <- (ascii_N_embedding b), Hab. reflexivity.
Qed.

Lemma to_int_proper (z : Z) :
  Z.to_int z <> Decimal.Pos Decimal.Nil /\ Z.to_int z <> Decimal.Neg Decimal.Nil.
Proof.
  destruct z as [|p|p]; simpl; split; try discriminate;
    intros [= H]; exact (DecimalPos.Unsigned.to_uint_nonnil p H).
Qed.

(** Distinct integers print differently. *)
Lemma str_of_int_inj (a b : Z) : str_of_int a = str_of_int b -> a = b.
Proof.
  unfold str_of_int. intros H. apply lit_inj in H.
  destruct (to_int_proper a) as [Ha1 Ha2], (to_int_proper b) as [Hb1 Hb2].
  pose proof (NilZero.isi _ Ha1 Ha2) as Ia.
  pose proof (NilZero.isi _ Hb1 Hb2) as Ib.
  rewrite H in Ia. rewrite Ia in Ib. injection Ib as Hab.
  rewrite <- (DecimalZ.of_to a), <- (DecimalZ.of_to b), Hab. reflexivity.
Qed.

Lemma chunk_id_inj d (i j : Z) : chunk_id d i = chunk_id d j -> i = j.
Proof.
  unfold chunk_id. intros H.
  apply app_inv_head in H. apply app_inv_head in H.
  apply str_of_int_inj. exact H.
Qed.

Lemma range_from_lookup (count : nat) (start step : Z) (k : nat) :
  (k < count)%nat ->
  range_from count start step !! k = Some (start + Z.of_nat k * step)%Z.
Proof.
  revert start k. induction count as [|c IH]; intros start k Hk; [lia|].
  destruct k as [|k]; simpl.
  - f_equal. lia.
  - rewrite IH by lia. f_equal. lia.
Qed.

Lemma range_from_lookup_inv (count : nat) (start step : Z) (k : nat) i :
  range_from count start step !! k = Some i ->
  (k < count)%nat /\ i = (start + Z.of_nat k * step)%Z.
Proof.
  intros H. pose proof (lookup_lt_Some _ _ _ H) as Hlt.
  rewrite length_range_from in Hlt.
  rewrite range_from_lookup in H by exact Hlt. injection H as <-. auto.
Qed.

Lemma indices_lookup (chunks : list str) (k : nat) :
  (k < length chunks)%nat -> indices chunks !! k = Some (Z.of_nat k).
Proof.
  intros Hk. unfold indices. rewrite range_from_lookup by exact Hk.
  f_equal. lia.
Qed.

Lemma NoDup_indices (chunks : list str) : NoDup (indices chunks).
Proof.
  apply NoDup_alt. intros a b i Ha Hb.
  apply range_from_lookup_inv in Ha as [_ ->].
  apply range_from_lookup_inv in Hb as [_ Hb]. lia.
Qed.

(** The ids of one batch are pairwise distinct. *)
Lemma NoDup_chunk_ids d (chunks : list str) :
  NoDup (List.map (chunk_id d) (indices chunks)).
Proof.
  apply (NoDup_fmap_2_strong (chunk_id d)); [|apply NoDup_indices].
  intros i j _ _. apply chunk_id_inj.
Qed.

Lemma length_zip {A B} (a : list A) (b : list B) :
  length a = length b -> length (zip a b) = length a.
Proof.
  revert b. induction a as [|x a IH]; intros [|y b]; simpl; try discriminate;
    [reflexivity|].
  intros [= H]. f_equal. apply IH. exact H.
Qed.

Lemma records_fst (ids : list str) embeddings documents metadatas :
  length embeddings = length ids -> length documents = length ids ->
  length metadatas = length ids ->
  List.map fst (records ids embeddings documents metadatas) = ids.
Proof.
  intros He Hd Hm. unfold records.
  revert embeddings documents metadatas He Hd Hm.
  induction ids as [|id ids IH];
    intros [|e es] [|dc ds] [|m ms]; simpl; try discriminate; [reflexivity|].
  intros [= He] [= Hd] [= Hm]. f_equal. apply IH; assumption.
Qed.

Lemma records_lookup (ids : list str) embeddings documents metadatas
      (k : nat) id e dc m :
  ids !! k = Some id -> embeddings !! k = Some e ->
  documents !! k = Some dc -> metadatas !! k = Some m ->
  records ids embeddings documents metadatas !! k
  = Some (id, {| embedding := e; document := dc; metadata := m |}).
Proof.
  intros Hi He Hd Hm. unfold records.
  change (List.map ?f ?l) with (f <$> l). rewrite list_lookup_fmap.
  assert (H : zip ids (zip embeddings (zip documents metadatas)) !! k
              = Some (id, (e, (dc, m)))).
  { apply zip_lookup. split; [exact Hi|]. apply zip_lookup. split; [exact He|].
    apply zip_lookup. auto. }
  rewrite H. reflexivity.
Qed.

Lemma records_elem (ids : list str) embeddings documents metadatas id entry :
  (id, entry) ∈ records ids embeddings documents metadatas ->
  exists k, ids !! k = Some id /\ metadatas !! k = Some (metadata entry).
Proof.
  unfold records. change (List.map ?f ?l) with (f <$> l).
  intros H. apply list_elem_of_fmap in H as ([id' [e [dc m]]] & [= -> ->] & H).
  apply list_elem_of_lookup in H as [k H].
  apply zip_lookup in H as [Hi H]. apply zip_lookup in H as [_ H].
  apply zip_lookup in H as [_ H]. exists k. auto.
Qed.

End IndexInsert.

Section IndexInsertProps.

Import VectorStore Index.

Implicit Types (collection : gmap (list N) Entry) (d id : list N).

Lemma length_indices (chunks : list str) : length (indices chunks) = length chunks.
Proof. apply length_range_from. Qed.

(** A non-empty batch that passes the checks of [collection.add] is
    stored. *)
Lemma add_documents_union (checks : AddChecks) collection (chunks : list str)
      (embeddings : list (list Float64.float)) d (name time : str) :
  chunks <> [] ->
  length embeddings = length chunks ->
  checks collection (List.map (chunk_id d) (indices chunks)) embeddings chunks
    (List.map (chunk_metadata d name time (Z.of_nat (length chunks)))
              (indices chunks)) = Ok tt ->
  add_documents checks collection chunks embeddings d name time
  = Ok (collection
        ∪ list_to_map
            (records (List.map (chunk_id d) (indices chunks)) embeddings chunks
               (List.map (chunk_metadata d name time (Z.of_nat (length chunks)))
                         (indices chunks)))).
Proof.
  intros Hne Hlen Hok. unfold add_documents, collection_add.
  destruct chunks as [|c0 chunks']; [congruence|].
  destruct embeddings as [|e0 embeddings']; [discriminate|].
  cbn [truthy negb orb]. cbv iota zeta. rewrite Hok. reflexivity.
Qed.

Lemma batch_lookup (chunks : list str)
      (embeddings : list (list Float64.float))
      d (name time : str) id entry :
  length embeddings = length chunks ->
  (list_to_map
     (records (List.map (chunk_id d) (indices chunks)) embeddings chunks
        (List.map (chunk_metadata d name time (Z.of_nat (length chunks)))
                  (indices chunks))) : gmap (list N) Entry) !! id = Some entry
  <-> exists (k : nat) chunk emb,
        chunks !! k = Some chunk /\ embeddings !! k = Some emb
        /\ id = chunk_id d (Z.of_nat k)
        /\ entry = {| embedding := emb; document := chunk;
                      metadata := chunk_metadata d name time
                                    (Z.of_nat (length chunks)) (Z.of_nat k) |}.
Proof.
  intros Hlen.
  set (ids := List.map (chunk_id d) (indices chunks)).
  set (mds := List.map _ (indices chunks)).
  assert (Hfst : (records ids embeddings chunks mds).*1 = ids).
  { apply records_fst; subst ids mds;
      rewrite !length_map, length_indices; auto. }
  rewrite <- elem_of_list_to_map
    by (rewrite Hfst; apply NoDup_chunk_ids).
  assert (Hk : forall k chunk emb,
             chunks !! k = Some chunk -> embeddings !! k = Some emb ->
             records ids embeddings chunks mds !! k
             = Some (chunk_id d (Z.of_nat k),
                     {| embedding := emb; document := chunk;
                        metadata := chunk_metadata d name time
                                      (Z.of_nat (length chunks)) (Z.of_nat k) |})).
  { intros k chunk emb Hc He. pose proof (lookup_lt_Some _ _ _ Hc) as Hlt.
    apply records_lookup; try assumption; subst ids mds;
      change (List.map ?f ?l) with (f <$> l);
      rewrite list_lookup_fmap, indices_lookup by exact Hlt; reflexivity. }
  split.
  - intros H. apply list_elem_of_lookup in H as [k H].
    pose proof (lookup_lt_Some _ _ _ H) as Hlt.
    assert (Hlen' : length (records ids embeddings chunks mds) = length chunks).
    { rewrite <- (length_map fst). change (List.map fst ?l) with (l.*1).
      rewrite Hfst. subst ids. rewrite length_map. apply length_indices. }
    rewrite Hlen' in Hlt.
    destruct (lookup_lt_is_Some_2 chunks k Hlt) as [chunk Hc].
    destruct (lookup_lt_is_Some_2 embeddings k ltac:(lia)) as [emb He].
    rewrite (Hk k chunk emb Hc He) in H. injection H as <- <-.
    exists k, chunk, emb. auto.
  - intros (k & chunk & emb & Hc & He & -> & ->).
    apply list_elem_of_lookup. exists k. apply Hk; assumption.
Qed.

Lemma add_documents_fresh_spec (checks : AddChecks) collection
        (chunks : list str) (embeddings : list (list Float64.float))
        d (name time : str) :
  chunks <> [] ->
  length embeddings = length chunks ->
  checks collection (List.map (chunk_id d) (indices chunks)) embeddings chunks
    (List.map (chunk_metadata d name time (Z.of_nat (length chunks)))
              (indices chunks)) = Ok tt ->
  (forall i : Z, collection !! chunk_id d i = None) ->
  exists collection' : gmap (list N) Entry,
    add_documents checks collection chunks embeddings d name time
    = Ok collection'
    /\ (forall (k : nat) chunk emb,
          chunks !! k = Some chunk -> embeddings !! k = Some emb ->
          collection' !! chunk_id d (Z.of_nat k)
          = Some {| embedding := emb; document := chunk;
                    metadata := chunk_metadata d name time
                                  (Z.of_nat (length chunks)) (Z.of_nat k) |})
    /\ (forall id e, collection !! id = Some e -> collection' !! id = Some e)
    /\ (forall id e, collection' !! id = Some e ->
          collection !! id = Some e
          \/ exists k : nat,
               (k < length chunks)%nat /\ id = chunk_id d (Z.of_nat k)
               /\ metadata e = chunk_metadata d name time
                                 (Z.of_nat (length chunks)) (Z.of_nat k))
    /\ get_chunk_count collection'
       = (get_chunk_count collection + Z.of_nat (length chunks))%Z.
Proof.
  intros Hne Hlen Hok Hfresh.
  rewrite (add_documents_union checks collection chunks embeddings d name time
             Hne Hlen Hok).
  eexists. split; [reflexivity|].
  set (batch := list_to_map _ : gmap (list N) Entry).
  assert (Hbatch : forall id entry, batch !! id = Some entry <-> _)
    by (intros id entry; apply batch_lookup; exact Hlen).
  split; [|split; [|split]].
  - intros k chunk emb Hc He. apply lookup_union_Some_raw. right.
    split; [apply Hfresh|]. apply Hbatch. exists k, chunk, emb. auto.
  - intros id e He. apply lookup_union_Some_raw. left. exact He.
  - intros id e He. apply lookup_union_Some_raw in He as [He|[_ He]];
      [left; exact He | right].
    apply Hbatch in He as (k & chunk & emb & Hc & _ & -> & ->).
    exists k. split; [exact (lookup_lt_Some _ _ _ Hc) | auto].
  - unfold get_chunk_count. rewrite map_size_disj_union.
    + subst batch. rewrite map_size_list_to_map.
      * rewrite <- (length_map fst). change (List.map fst ?l) with (l.*1).
        rewrite records_fst by (rewrite !length_map, length_indices; auto).
        rewrite length_map, length_indices. lia.
      * rewrite records_fst by (rewrite !length_map, length_indices; auto).
        apply NoDup_chunk_ids.
    + apply map_disjoint_spec. intros id e1 e2 H1 H2.
      apply Hbatch in H2 as (k & _ & _ & _ & _ & -> & _).
      rewrite Hfresh in H1. discriminate.
Qed.

(** X7: adding a non-empty batch with one embedding per chunk, which the
    checks of [collection.add] accept, under ids not yet stored succeeds;
    chunk [k] is stored under ["<document_id>_chunk_<k>"] with its text,
    its embedding, [chunk_index = k] and [total_chunks = n]; what was
    stored stays; nothing else appears; the chunk count grows by [n]. *)
Theorem add_documents_fresh (checks : AddChecks) collection
        (chunks : list str) (embeddings : list (list Float64.float))
        d (name time : str) :
  chunks <> [] ->
  length embeddings = length chunks ->
  checks collection (List.map (chunk_id d) (indices chunks)) embeddings chunks
    (List.map (chunk_metadata d name time (Z.of_nat (length chunks)))
              (indices chunks)) = Ok tt ->
  (forall i : Z, collection !! chunk_id d i = None) ->
  exists collection' : gmap (list N) Entry,
    add_documents checks collection chunks embeddings d name time
    = Ok collection'
    /\ (forall (k : nat) chunk emb,
          chunks !! k = Some chunk -> embeddings !! k = Some emb ->
          collection' !! chunk_id d (Z.of_nat k)
          = Some {| embedding := emb; document := chunk;
                    metadata := chunk_metadata d name time
                                  (Z.of_nat (length chunks)) (Z.of_nat k) |})
    /\ (forall id e, collection !! id = Some e -> collection' !! id = Some e)
    /\ (forall id e, collection' !! id = Some e ->
          collection !! id = Some e
          \/ exists k : nat,
               (k < length chunks)%nat /\ id = chunk_id d (Z.of_nat k)
               /\ metadata e = chunk_metadata d name time
                                 (Z.of_nat (length chunks)) (Z.of_nat k))
    /\ get_chunk_count collection'
       = (get_chunk_count collection + Z.of_nat (length chunks))%Z.
Proof. apply add_documents_fresh_spec. Qed.

(** No id of the sample collection belongs to a document [D3]. *)
Lemma sample_collection_fresh (i : Z) :
  Sample.collection !! chunk_id (lit "D3") i = None.
Proof.
  destruct (Sample.collection !! chunk_id (lit "D3") i) as [e|] eqn:E;
    [exfalso | reflexivity].
  assert (H : map_Forall (fun (k : list N) (_ : Entry) =>
                            firstn 2 k <> lit "D3") Sample.collection).
  { refine (bool_decide_unpack _ _). vm_compute. exact I. }
  exact (H _ _ E eq_refl).
Qed.

Lemma add_documents_fresh_witness :
  exists collection' : gmap (list N) Entry,
    add_documents Sample.add_checks Sample.collection [lit "C."; lit "D."]
      [[Float64.one; Float64.zero]; [Float64.zero; Float64.one]]
      (lit "D3") (lit "c.txt") (lit "now") = Ok collection'
    /\ get_chunk_count collection' = 5%Z.
Proof.
  destruct (add_documents_fresh Sample.add_checks Sample.collection
              [lit "C."; lit "D."]
              [[Float64.one; Float64.zero]; [Float64.zero; Float64.one]]
              (lit "D3") (lit "c.txt") (lit "now"))
    as (collection' & Hadd & _ & _ & _ & Hcount);
    [discriminate | reflexivity | vm_compute; reflexivity
     | exact sample_collection_fresh |].
  exists collection'. split; [exact Hadd|].
  rewrite Hcount. reflexivity.
Defined.

(** X8: adding a batch, which the checks of [collection.add] accept, for
    a document of which the collection holds nothing, and deleting that
    document again, gives back the stored entries as they were; the delete
    reports the number of chunks added. *)
Theorem add_then_delete_document (checks : AddChecks) collection
        (chunks : list str) (embeddings : list (list Float64.float))
        d (name time : str) :
  chunks <> [] ->
  length embeddings = length chunks ->
  checks collection (List.map (chunk_id d) (indices chunks)) embeddings chunks
    (List.map (chunk_metadata d name time (Z.of_nat (length chunks)))
              (indices chunks)) = Ok tt ->
  (forall i : Z, collection !! chunk_id d i = None) ->
  (forall id e, collection !! id = Some e -> document_id (metadata e) <> d) ->
  exists collection' : gmap (list N) Entry,
    add_documents checks collection chunks embeddings d name time
    = Ok collection'
    /\ delete_document collection' d
       = (Z.of_nat (length chunks), collection).
Proof.
  intros Hne Hlen Hok Hfresh Hnew.
  destruct (add_documents_fresh_spec checks collection chunks embeddings d
              name time Hne Hlen Hok Hfresh)
    as (collection' & Hadd & _ & Hkeep & Hnothing & Hcount).
  exists collection'. split; [exact Hadd|].
  assert (Hrest : filter (fun kv : list N * Entry =>
                            ~ document_id (metadata (snd kv)) = d) collection'
                  = collection).
  { apply map_eq; intros id. apply option_eq; intros e.
    rewrite map_lookup_filter_Some. simpl. split.
    - intros [He Hd]. apply Hnothing in He as [He|(k & _ & _ & Hm)];
        [exact He|]. exfalso. apply Hd. rewrite Hm. reflexivity.
    - intros He. split; [apply Hkeep; exact He | exact (Hnew id e He)]. }
  rewrite delete_document_unfold, delete_matched_is_filter, Hrest.
  f_equal. rewrite length_get_ids_where.
  pose proof (size_split_by_document collection' d) as Hsplit.
  rewrite Hrest in Hsplit. unfold get_chunk_count in Hcount. lia.
Qed.

Lemma add_then_delete_document_witness :
  exists collection' : gmap (list N) Entry,
    add_documents Sample.add_checks Sample.collection [lit "C."; lit "D."]
      [[Float64.one; Float64.zero]; [Float64.zero; Float64.one]]
      (lit "D3") (lit "c.txt") (lit "now") = Ok collection'
    /\ delete_document collection' (lit "D3") = (2%Z, Sample.collection).
Proof.
  apply (add_then_delete_document Sample.add_checks Sample.collection
           [lit "C."; lit "D."]
           [[Float64.one; Float64.zero]; [Float64.zero; Float64.one]]
           (lit "D3") (lit "c.txt") (lit "now"));
    [discriminate | reflexivity | vm_compute; reflexivity
     | exact sample_collection_fresh |].
  refine (bool_decide_unpack
            (map_Forall (fun _ e => document_id (metadata e) <> lit "D3")
               Sample.collection) _).
  vm_compute. exact I.
Defined.

End IndexInsertProps.

(** ** Enumeration of the index *)

Section IndexList.

Import VectorStore Index.

Implicit Types (collection : gmap (list N) Entry) (d id : list N).

Lemma group_keys (mds : list Metadata) :
  forall (documents : list (str * DocumentInfo)) d,
    d ∈ (group mds documents).*1
    <-> d ∈ documents.*1 \/ exists md, md ∈ mds /\ document_id md = d.
Proof.
  induction mds as [|md mds IH]; intros documents d; simpl.
  - split; [auto | intros [H|(md & H & _)]; [exact H | inversion H]].
  - change (List.map fst documents) with (documents.*1).
    destruct (bool_decide_reflect (document_id md ∈ documents.*1)) as [Hin|Hnin];
      rewrite IH.
    + split; intros [H|(md' & Hmd & Hd)]; auto.
      * right. exists md'. split; [right; exact Hmd | exact Hd].
      * apply elem_of_cons in Hmd as [->|Hmd]; [left; congruence|].
        right. eauto.
    + rewrite fmap_app, elem_of_app. simpl. rewrite list_elem_of_singleton.
      split.
      * intros [[H| ->]|(md' & Hmd & Hd)]; auto.
        -- right. exists md. split; [left | reflexivity].
        -- right. exists md'. split; [right; exact Hmd | exact Hd].
      * intros [H|(md' & Hmd & Hd)]; [auto|].
        apply elem_of_cons in Hmd as [->|Hmd]; [left; right; congruence|].
        right. eauto.
Qed.

Lemma group_NoDup (mds : list Metadata) :
  forall documents : list (str * DocumentInfo),
    NoDup documents.*1 -> NoDup (group mds documents).*1.
Proof.
  induction mds as [|md mds IH]; intros documents Hnd; simpl; [exact Hnd|].
  change (List.map fst documents) with (documents.*1).
  destruct (bool_decide_reflect (document_id md ∈ documents.*1)) as [Hin|Hnin];
    apply IH; [exact Hnd|].
  rewrite fmap_app. apply NoDup_app. split; [exact Hnd|]. split.
  - intros x Hx Hx'. simpl in Hx'. apply list_elem_of_singleton in Hx'.
    subst x. contradiction.
  - simpl. apply NoDup_singleton.
Qed.

Lemma group_entries (mds : list Metadata) :
  forall (documents : list (str * DocumentInfo)) d info,
    (d, info) ∈ group mds documents ->
    (d, info) ∈ documents
    \/ exists md, md ∈ mds /\ d = document_id md /\ info = info_of md.
Proof.
  induction mds as [|md mds IH]; intros documents d info; simpl; [auto|].
  destruct (bool_decide _); intros H; apply IH in H.
  - destruct H as [H|(md' & Hmd & H)]; [auto|].
    right. exists md'. split; [right; exact Hmd | exact H].
  - destruct H as [H|(md' & Hmd & H)].
    + apply elem_of_app in H as [H|H]; [auto|].
      apply list_elem_of_singleton in H. injection H as -> ->.
      right. exists md. split; [left | auto].
    + right. exists md'. split; [right; exact Hmd | exact H].
Qed.

Lemma elem_of_all_metadatas collection (md : Metadata) :
  md ∈ all_metadatas collection
  <-> exists id e, collection !! id = Some e /\ metadata e = md.
Proof.
  unfold all_metadatas. change (List.map ?f ?l) with (f <$> l).
  rewrite list_elem_of_fmap. split.
  - intros ([id e] & -> & H). apply elem_of_map_to_list in H. eauto.
  - intros (id & e & H & <-). exists (id, e). split; [reflexivity|].
    apply elem_of_map_to_list. exact H.
Qed.

Lemma list_documents_group collection :
  list_documents collection = (group (all_metadatas collection) []).*2.
Proof.
  unfold list_documents. destruct (all_metadatas collection); reflexivity.
Qed.

Lemma list_documents_ids collection :
  List.map info_document_id (list_documents collection)
  = (group (all_metadatas collection) []).*1.
Proof.
  rewrite list_documents_group.
  pose proof (group_entries (all_metadatas collection) []) as H.
  induction (group (all_metadatas collection) []) as [|[d info] g IH];
    [reflexivity|].
  simpl. f_equal.
  - destruct (H d info) as [Hin|(md & _ & -> & ->)]; [left | inversion Hin |].
    reflexivity.
  - apply IH. intros d' info' Hin. apply H. right. exact Hin.
Qed.

Lemma list_documents_listed collection d :
  d ∈ List.map info_document_id (list_documents collection)
  <-> exists id e, collection !! id = Some e /\ document_id (metadata e) = d.
Proof.
  rewrite list_documents_ids, group_keys. split.
  - intros [H|(md & Hmd & Hd)]; [inversion H|].
    apply elem_of_all_metadatas in Hmd as (id & e & He & <-). eauto.
  - intros (id & e & He & Hd). right. exists (metadata e).
    split; [apply elem_of_all_metadatas; eauto | exact Hd].
Qed.

(** X9: [list_documents] lists every document id that some stored chunk
    carries, each exactly once, and nothing else; the filename, upload
    time and chunk count of an entry are those of one stored chunk of that
    document ([chunk_count] being its [total_chunks]). *)
Theorem list_documents_one_per_document collection :
  NoDup (List.map info_document_id (list_documents collection))
  /\ (forall d,
        In d (List.map info_document_id (list_documents collection))
        <-> exists id e, collection !! id = Some e
                         /\ document_id (metadata e) = d)
  /\ (forall info, In info (list_documents collection) ->
        exists id e, collection !! id = Some e /\ info = info_of (metadata e)).
Proof.
  split; [|split].
  - rewrite list_documents_ids. apply group_NoDup. constructor.
  - intros d. rewrite <- list_elem_of_In. apply list_documents_listed.
  - intros info Hin. apply list_elem_of_In in Hin.
    rewrite list_documents_group in Hin.
    apply list_elem_of_fmap in Hin as ([d info'] & -> & Hin).
    apply group_entries in Hin as [Hin|(md & Hmd & _ & ->)]; [inversion Hin|].
    apply elem_of_all_metadatas in Hmd as (id & e & He & <-). eauto.
Qed.

(** The number of listed documents is the number of distinct document ids. *)
Lemma get_document_count_size collection (ids : gset (list N)) :
  (forall d, d ∈ ids
             <-> exists id e, collection !! id = Some e
                              /\ document_id (metadata e) = d) ->
  get_document_count collection = Z.of_nat (size ids).
Proof.
  intros Hids. unfold get_document_count.
  rewrite <- (length_map info_document_id).
  assert (Hnd : NoDup (List.map info_document_id (list_documents collection)))
    by (rewrite list_documents_ids; apply group_NoDup; constructor).
  rewrite <- (size_list_to_set (C := gset (list N)) _ Hnd).
  do 2 f_equal. apply set_eq. intros d.
  rewrite elem_of_list_to_set, list_documents_listed, Hids. reflexivity.
Qed.

End IndexList.

Section IndexCounts.

Import VectorStore Index.

Implicit Types (collection : gmap (list N) Entry) (d id : list N).

Lemma delete_document_lookup collection d id e :
  snd (delete_document collection d) !! id = Some e
  <-> collection !! id = Some e /\ document_id (metadata e) <> d.
Proof.
  rewrite delete_document_unfold. simpl.
  rewrite delete_matched_is_filter, map_lookup_filter_Some. reflexivity.
Qed.

Lemma listed_set collection :
  forall d,
    d ∈ (list_to_set (List.map info_document_id (list_documents collection))
         : gset (list N))
    <-> exists id e, collection !! id = Some e /\ document_id (metadata e) = d.
Proof.
  intros d. rewrite elem_of_list_to_set. apply list_documents_listed.
Qed.

(** X10: after [delete_document] the document is no longer listed, every
    other document is listed exactly if it was before, and the document
    count has dropped by one if the document was listed and is unchanged
    otherwise. *)
Theorem delete_document_unlists collection d :
  (forall d',
     In d' (List.map info_document_id
              (list_documents (snd (delete_document collection d))))
     <-> d' <> d
         /\ In d' (List.map info_document_id (list_documents collection)))
  /\ (In d (List.map info_document_id (list_documents collection)) ->
      get_document_count (snd (delete_document collection d))
      = (get_document_count collection - 1)%Z)
  /\ (~ In d (List.map info_document_id (list_documents collection)) ->
      get_document_count (snd (delete_document collection d))
      = get_document_count collection).
Proof.
  assert (Hlisted : forall d',
             d' ∈ List.map info_document_id
                    (list_documents (snd (delete_document collection d)))
             <-> d' <> d
                 /\ d' ∈ List.map info_document_id (list_documents collection)).
  { intros d'. rewrite !list_documents_listed. split.
    - intros (id & e & He & Hd). apply delete_document_lookup in He as [He Hne].
      split; [congruence | eauto].
    - intros (Hne & id & e & He & Hd). exists id, e.
      split; [|exact Hd]. apply delete_document_lookup.
      split; [exact He | congruence]. }
  set (ids := list_to_set (List.map info_document_id (list_documents collection))
              : gset (list N)).
  assert (Hcount : get_document_count (snd (delete_document collection d))
                   = Z.of_nat (size (ids ∖ {[d]}))).
  { apply get_document_count_size. intros d'.
    rewrite <- list_documents_listed, Hlisted.
    rewrite elem_of_difference, elem_of_singleton.
    subst ids. rewrite elem_of_list_to_set. tauto. }
  assert (Hbefore : get_document_count collection = Z.of_nat (size ids))
    by (apply get_document_count_size, listed_set).
  split; [|split].
  - intros d'. rewrite <- !list_elem_of_In. apply Hlisted.
  - intros Hin. apply list_elem_of_In in Hin.
    rewrite Hcount, Hbefore.
    rewrite size_difference
      by (apply singleton_subseteq_l; subst ids;
          apply elem_of_list_to_set; exact Hin).
    rewrite size_singleton.
    assert (size ids <> 0%nat).
    { apply size_non_empty_iff. intros Hempty.
      assert (Hd : d ∈ ids) by (subst ids; apply elem_of_list_to_set; exact Hin).
      rewrite Hempty in Hd. apply elem_of_empty in Hd. exact Hd. }
    lia.
  - intros Hnin. rewrite Hcount, Hbefore. do 2 f_equal.
    apply set_eq. intros d'. rewrite elem_of_difference, elem_of_singleton.
    split; [tauto|]. intros Hd'. split; [exact Hd'|]. intros ->.
    apply Hnin. apply list_elem_of_In. subst ids.
    apply elem_of_list_to_set in Hd'. exact Hd'.
Qed.

Lemma delete_document_unlists_witness :
  get_document_count (snd (delete_document Sample.collection (lit "D1")))
  = (get_document_count Sample.collection - 1)%Z
  /\ get_document_count (snd (delete_document Sample.collection (lit "D3")))
     = get_document_count Sample.collection.
Proof.
  split.
  - apply (proj1 (proj2 (delete_document_unlists Sample.collection (lit "D1")))).
    vm_compute. auto.
  - apply (proj2 (proj2 (delete_document_unlists Sample.collection (lit "D3")))).
    vm_compute. intros [H|[H|[]]]; discriminate H.
Defined.

(** X11: adding a non-empty batch, which the checks of [collection.add]
    accept, for a document of which the collection holds nothing (under ids
    not yet stored, one embedding per chunk) makes that document listed
    beside the ones listed before and raises the document count by one. *)
Theorem add_documents_new_document (checks : AddChecks) collection
        (chunks : list str) (embeddings : list (list Float64.float))
        d (name time : str) :
  chunks <> [] ->
  length embeddings = length chunks ->
  checks collection (List.map (chunk_id d) (indices chunks)) embeddings chunks
    (List.map (chunk_metadata d name time (Z.of_nat (length chunks)))
              (indices chunks)) = Ok tt ->
  (forall i : Z, collection !! chunk_id d i = None) ->
  (forall id e, collection !! id = Some e -> document_id (metadata e) <> d) ->
  exists collection' : gmap (list N) Entry,
    add_documents checks collection chunks embeddings d name time
    = Ok collection'
    /\ (forall d',
          In d' (List.map info_document_id (list_documents collection'))
          <-> d' = d
              \/ In d' (List.map info_document_id (list_documents collection)))
    /\ get_document_count collection'
       = (get_document_count collection + 1)%Z.
Proof.
  intros Hne Hlen Hok Hfresh Hnew.
  destruct (add_documents_fresh_spec checks collection chunks embeddings d
              name time Hne Hlen Hok Hfresh)
    as (collection' & Hadd & Hstored & Hkeep & Hnothing & _).
  exists collection'. split; [exact Hadd|].
  assert (Hlisted : forall d',
             d' ∈ List.map info_document_id (list_documents collection')
             <-> d' = d
                 \/ d' ∈ List.map info_document_id (list_documents collection)).
  { intros d'. rewrite !list_documents_listed. split.
    - intros (id & e & He & Hd).
      apply Hnothing in He as [He|(k & _ & _ & Hm)]; [right; eauto | left].
      rewrite Hm in Hd. simpl in Hd. congruence.
    - intros [->|(id & e & He & Hd)]; [|exists id, e; auto].
      destruct chunks as [|chunk chunks']; [congruence|].
      destruct embeddings as [|emb embeddings']; [discriminate|].
      eexists _, _. split; [apply (Hstored 0%nat chunk emb); reflexivity|].
      reflexivity. }
  split; [intros d'; rewrite <- !list_elem_of_In; apply Hlisted|].
  set (ids := list_to_set (List.map info_document_id (list_documents collection))
              : gset (list N)).
  assert (Hd : d ∉ ids).
  { subst ids. rewrite elem_of_list_to_set, list_documents_listed.
    intros (id & e & He & Heq). exact (Hnew id e He Heq). }
  rewrite (get_document_count_size collection' ({[d]} ∪ ids)).
  - rewrite (get_document_count_size collection ids) by apply listed_set.
    rewrite size_union by (apply disjoint_singleton_l; exact Hd).
    rewrite size_singleton. lia.
  - intros d'. rewrite <- list_documents_listed, Hlisted.
    rewrite elem_of_union, elem_of_singleton. subst ids.
    rewrite elem_of_list_to_set. reflexivity.
Qed.

Lemma add_documents_new_document_witness :
  exists collection' : gmap (list N) Entry,
    add_documents Sample.add_checks Sample.collection [lit "C."; lit "D."]
      [[Float64.one; Float64.zero]; [Float64.zero; Float64.one]]
      (lit "D3") (lit "c.txt") (lit "now") = Ok collection'
    /\ get_document_count collection' = 3%Z.
Proof.
  destruct (add_documents_new_document Sample.add_checks Sample.collection
              [lit "C."; lit "D."]
              [[Float64.one; Float64.zero]; [Float64.zero; Float64.one]]
              (lit "D3") (lit "c.txt") (lit "now"))
    as (collection' & Hadd & _ & Hcount);
    [discriminate | reflexivity | vm_compute; reflexivity
     | exact sample_collection_fresh | |].
  - refine (bool_decide_unpack
              (map_Forall (fun _ e => document_id (metadata e) <> lit "D3")
                 Sample.collection) _).
    vm_compute. exact I.
  - exists collection'. split; [exact Hadd|]. rewrite Hcount.
    vm_compute. reflexivity.
Defined.

End IndexCounts.

(** ** Chunk ids *)

Section ChunkIds.

Import Index.

Lemma split_at_last_separator {A} (sep : A) (a b s t : list A) :
  ~ In sep s -> ~ In sep t ->
  a ++ sep :: s = b ++ sep :: t -> a = b /\ s = t.
Proof.
  intros Hs Ht. revert b. induction a as [|x a IH]; intros [|y b]; simpl.
  - intros [= ->]. auto.
  - intros [= <- ->]. exfalso. apply Hs. apply in_or_app. right. left. reflexivity.
  - intros [= -> <-]. exfalso. apply Ht. apply in_or_app. right. left. reflexivity.
  - intros [= -> H]. destruct (IH b H) as [-> ->]. auto.
Qed.

Lemma digits_no_underscore (u : Decimal.uint) :
  ~ In 95%N (lit (NilEmpty.string_of_uint u)).
Proof.
  induction u; simpl; intros H;
    try (destruct H as [H|H]; [discriminate H | exact (IHu H)]).
  exact H.
Qed.

Lemma str_of_int_no_underscore (i : Z) :
  (0 <= i)%Z -> ~ In 95%N (str_of_int i).
Proof.
  intros Hi. unfold str_of_int.
  destruct i as [|p|p]; [intros [H|[]]; discriminate H | | lia].
  simpl. unfold NilZero.string_of_uint.
  destruct (Pos.to_uint p) eqn:E;
    try (rewrite <- E; apply digits_no_underscore).
  exfalso. exact (DecimalPos.Unsigned.to_uint_nonnil p E).
Qed.

(** X12: chunk ids identify their chunk: two ids built from non-negative
    indices are equal only if both the document id and the index are. *)
Theorem chunk_id_unique (d d' : str) (i j : Z) :
  (0 <= i)%Z -> (0 <= j)%Z ->
  chunk_id d i = chunk_id d' j -> d = d' /\ i = j.
Proof.
  intros Hi Hj H.
  assert (Hshape : forall (x : str) (k : Z),
             chunk_id x k = (x ++ lit "_chunk") ++ 95%N :: str_of_int k).
  { intros x k. unfold chunk_id. rewrite <- app_assoc. reflexivity. }
  rewrite !Hshape in H.
  apply split_at_last_separator in H as [Hd Hij];
    [| apply str_of_int_no_underscore; exact Hi
     | apply str_of_int_no_underscore; exact Hj].
  split; [exact (app_inv_tail _ _ _ Hd) | exact (str_of_int_inj _ _ Hij)].
Qed.

Lemma chunk_id_unique_witness :
  lit "D1" = lit "D1" /\ 12%Z = 12%Z.
Proof.
  apply (chunk_id_unique (lit "D1") (lit "D1") 12 12); [lia | lia | reflexivity].
Defined.

End ChunkIds.

(** ** Sources and context *)

Section Attribution.

Import VectorStore RAGPipeline.

(** X13: the displayed content of a source is the document itself when it
    has at most 200 characters, and otherwise its first 200 characters
    followed by "..."; it never exceeds 203 characters and always starts
    with the first 200 characters of the document. *)
Theorem truncate_bounds (doc : str) :
  (length (truncate doc) <= 203)%nat
  /\ firstn 200 (truncate doc) = firstn 200 doc
  /\ ((length doc <= 200)%nat -> truncate doc = doc)
  /\ ((200 < length doc)%nat -> truncate doc = firstn 200 doc ++ lit "...").
Proof.
  assert (Hslice : (200 < length doc)%nat -> slice doc 0 200 = firstn 200 doc).
  { intros Hlen. unfold slice, slice_index.
    change (0 <? 0)%Z with false. change (200 <? 0)%Z with false. cbv iota.
    rewrite !Z.min_l by lia. reflexivity. }
  unfold truncate. destruct (Z.gtb_spec (Z.of_nat (length doc)) 200) as [Hlong|Hshort].
  - rewrite Hslice by lia. split; [|split; [|split]].
    + rewrite length_app, length_take.
      change (length (lit "...")) with 3%nat. lia.
    + rewrite take_app_le by (rewrite length_take; lia).
      rewrite take_take. reflexivity.
    + lia.
    + reflexivity.
  - split; [lia|]. split; [reflexivity|]. split; [reflexivity | lia].
Qed.

Lemma truncate_bounds_witness :
  truncate (lit "In stock.") = lit "In stock.".
Proof.
  apply (proj1 (proj2 (proj2 (truncate_bounds (lit "In stock."))))).
  simpl; lia.
Defined.

Lemma generate_response_ok (self : RAGPipeline.t) (now q : str)
      (search_results : SearchResults) context srcs :
  _build_context search_results = Ok context ->
  extract_sources search_results = Ok srcs ->
  exists a,
    generate_response self now q search_results
    = Ok {| answer := a; sources := srcs; query := q; timestamp := now |}.
Proof.
  intros Hc Hs. unfold generate_response.
  rewrite Hc, result_bind_ok, Hs. eexists. reflexivity.
Qed.

Lemma extract_sources_rows (docs : list str) (mds : list Metadata)
      (rows : option (list Float64.float)) :
  docs <> [] ->
  extract_sources
    {| documents := [docs]; metadatas := [mds];
       distances := option_map (fun row => [row]) rows |}
  = Ok (List.map (fun '(doc, (md, distance)) => source_of doc md distance)
          (zip docs (zip mds (default (repeat Float64.zero (length docs))
                                       rows)))).
Proof.
  intros Hne. destruct docs as [|doc docs']; [congruence|].
  destruct rows as [row|]; reflexivity.
Qed.

Lemma repeat_lookup {A} (x : A) (n k : nat) :
  (k < n)%nat -> repeat x n !! k = Some x.
Proof.
  revert k. induction n as [|n IH]; intros [|k] Hk; simpl; try lia; auto.
  apply IH. lia.
Qed.

(** X14: over results with one row per key, [generate_response] returns
    one source per retrieved chunk that has both metadata and a distance,
    in retrieval order: source [k] carries the document id, filename and
    chunk index of metadata [k], the truncated text of document [k] and the
    score of distance [k]; when the key ['distances'] is absent every
    score is that of distance 0. *)
Theorem sources_follow_retrieval (self : RAGPipeline.t) (now q : str)
        (docs : list str) (mds : list Metadata)
        (rows : option (list Float64.float)) :
  exists r,
    generate_response self now q
      {| documents := [docs]; metadatas := [mds];
         distances := option_map (fun row => [row]) rows |} = Ok r
    /\ (forall (k : nat) s,
          sources r !! k = Some s <->
          exists doc md distance,
            docs !! k = Some doc /\ mds !! k = Some md
            /\ default (repeat Float64.zero (length docs)) rows !! k
               = Some distance
            /\ s = {| source_document_id := document_id md;
                      source_filename := filename md;
                      source_chunk_index := chunk_index md;
                      relevance_score := round (similarity_score distance) 3;
                      content := truncate doc |})
    /\ (rows = None ->
        forall s, In s (sources r) -> relevance_score s = Float64.one).
Proof.
  set (search_results :=
         {| documents := [docs]; metadatas := [mds];
            distances := option_map (fun row => [row]) rows |}).
  assert (Hshape : one_row_each search_results = true)
    by (destruct rows; reflexivity).
  destruct (build_context_one_row _ Hshape) as [context Hc].
  destruct (extract_sources_one_row _ Hshape) as [srcs Hs].
  destruct (generate_response_ok self now q search_results context srcs Hc Hs)
    as [a Hr].
  eexists. split; [exact Hr|]. cbn [sources]. subst search_results.
  assert (Hsrcs : srcs = List.map (fun '(doc, (md, distance)) =>
                                     source_of doc md distance)
                           (zip docs (zip mds
                              (default (repeat Float64.zero (length docs))
                                       rows)))).
  { destruct docs as [|doc docs'].
    - destruct rows; injection Hs as <-; reflexivity.
    - rewrite extract_sources_rows in Hs by discriminate.
      injection Hs as <-. reflexivity. }
  subst srcs. split.
  - intros k s. change (List.map ?f ?l) with (f <$> l).
    rewrite list_lookup_fmap. split.
    + destruct (zip docs _ !! k) as [[doc [md distance]]|] eqn:E;
        [|discriminate].
      intros [= <-]. apply zip_lookup in E as [Hd E].
      apply zip_lookup in E as [Hm Hdist].
      exists doc, md, distance. auto.
    + intros (doc & md & distance & Hd & Hm & Hdist & ->).
      assert (E : zip docs (zip mds (default (repeat Float64.zero (length docs))
                                             rows))
                  !! k = Some (doc, (md, distance))).
      { apply zip_lookup. split; [exact Hd|]. apply zip_lookup. auto. }
      rewrite E. reflexivity.
  - intros -> s Hs'. apply in_map_iff in Hs' as ([doc [md distance]] & <- & Hin).
    apply in_zip in Hin as [_ Hin]. apply in_zip in Hin as [_ Hin].
    simpl in Hin. apply repeat_spec in Hin. subst distance.
    vm_compute. reflexivity.
Qed.

End Attribution.

Section Context.

Import VectorStore RAGPipeline.

Lemma context_pieces_lookup (pairs : list (str * Metadata)) :
  forall (i : Z) (k : nat) doc md,
    pairs !! k = Some (doc, md) ->
    context_pieces i pairs !! k
    = Some (lit "[Source " ++ str_of_int (i + Z.of_nat k + 1) ++ lit ": "
              ++ filename md ++ lit "]" ++ nl ++ doc ++ nl).
Proof.
  induction pairs as [|[doc0 md0] pairs IH]; intros i k doc md; [discriminate|].
  destruct k as [|k]; cbn [context_pieces].
  - intros [= -> ->]. cbn [lookup list_lookup]. do 3 f_equal. f_equal. lia.
  - intros H. cbn [lookup list_lookup] in *. rewrite (IH _ _ _ _ H).
    do 3 f_equal. f_equal. lia.
Qed.

Lemma join_contains (sep : str) (parts : list str) p :
  In p parts -> exists pre post, join sep parts = pre ++ p ++ post.
Proof.
  induction parts as [|p0 parts IH]; [intros []|].
  intros [->|Hin].
  - destruct parts as [|p1 parts]; cbn [join].
    + exists [], []. rewrite app_nil_r. reflexivity.
    + exists [], (sep ++ join sep (p1 :: parts)). reflexivity.
  - destruct (IH Hin) as (pre & post & Hj).
    destruct parts as [|p1 parts]; [destruct Hin|].
    cbn [join]. cbn [join] in Hj. rewrite Hj.
    exists (p0 ++ sep ++ pre), post. rewrite <- !app_assoc. reflexivity.
Qed.

Lemma piece_app_r {A} (a y p : list A) :
  (exists pre post, y = pre ++ p ++ post) ->
  exists pre post, a ++ y = pre ++ p ++ post.
Proof.
  intros (pre & post & ->). exists (a ++ pre), post. apply app_assoc.
Qed.

Lemma piece_app_l {A} (x b p : list A) :
  (exists pre post, x = pre ++ p ++ post) ->
  exists pre post, x ++ b = pre ++ p ++ post.
Proof.
  intros (pre & post & ->). exists pre, (post ++ b).
  rewrite <- !app_assoc. reflexivity.
Qed.

(** X15: the prompt handed to the backend carries, for every retrieved
    chunk [k] that has metadata, a block headed "[Source k+1: filename]"
    followed by the full text of the chunk (not the truncated display
    content); with no retrieved chunk the context is
    "No relevant context found.". *)
Theorem prompt_carries_full_chunks (q : str) (docs : list str)
        (mds : list Metadata) (dists : option (list (list Float64.float))) :
  exists context,
    _build_context {| documents := [docs]; metadatas := [mds];
                      distances := dists |} = Ok context
    /\ (docs = [] -> context = lit "No relevant context found.")
    /\ forall (k : nat) doc md,
         docs !! k = Some doc -> mds !! k = Some md ->
         exists pre post,
           _build_prompt q context
           = pre ++ (lit "[Source " ++ str_of_int (Z.of_nat k + 1) ++ lit ": "
                       ++ filename md ++ lit "]" ++ nl ++ doc ++ nl) ++ post.
Proof.
  destruct docs as [|doc0 docs'].
  - exists no_context. split; [reflexivity|]. split; [reflexivity|].
    intros k doc md H. discriminate H.
  - set (docs := doc0 :: docs').
    exists (join nl (context_pieces 0 (zip docs mds))).
    split; [reflexivity|]. split; [discriminate|].
    intros k doc md Hd Hm.
    assert (Hz : zip docs mds !! k = Some (doc, md))
      by (apply zip_lookup; auto).
    pose proof (context_pieces_lookup _ 0 k doc md Hz) as Hp.
    rewrite Z.add_0_l in Hp.
    apply list_elem_of_lookup_2, list_elem_of_In in Hp.
    destruct (join_contains nl _ _ Hp) as (pre & post & Hj).
    unfold _build_prompt.
    do 5 apply piece_app_r. apply piece_app_l.
    exists pre, post. exact Hj.
Qed.

Lemma prompt_carries_full_chunks_witness :
  exists context,
    _build_context Sample.results = Ok context
    /\ exists pre post,
         _build_prompt (lit "Is it in stock?") context
         = pre ++ (lit "[Source " ++ str_of_int 2 ++ lit ": "
                     ++ lit "D2.txt" ++ lit "]" ++ nl ++ lit "C." ++ nl)
               ++ post.
Proof.
  destruct (prompt_carries_full_chunks (lit "Is it in stock?")
              [lit "A. B"; lit "C."]
              [Sample.metadata_of (lit "D1") 0 2; Sample.metadata_of (lit "D2") 0 1]
              (Some [[Float64.of_decimal false 1 4;
                      Float64.of_decimal false 3 2]]))
    as (context & Hc & _ & Hk).
  exists context. split; [exact Hc|].
  exact (Hk 1%nat (lit "C.") (Sample.metadata_of (lit "D2") 0 1)
            eq_refl eq_refl).
Defined.

Lemma sources_follow_retrieval_witness :
  exists r,
    generate_response Sample.pipeline_up (lit "now") (lit "Is it in stock?")
      {| documents := [[lit "A. B"]];
         metadatas := [[Sample.metadata_of (lit "D1") 0 2]];
         distances := None |} = Ok r
    /\ forall s, In s (sources r) -> relevance_score s = Float64.one.
Proof.
  destruct (sources_follow_retrieval Sample.pipeline_up (lit "now")
              (lit "Is it in stock?") [lit "A. B"]
              [Sample.metadata_of (lit "D1") 0 2] None)
    as (r & Hr & _ & Hone).
  exists r. split; [exact Hr | exact (Hone eq_refl)].
Defined.

End Context.

(** ** Routes *)

Section Routes.

Import VectorStore RAGPipeline QueryRoute.

Implicit Types (collection : gmap (list N) Entry) (d id : list N).

Lemma get_ids_where_nil collection d :
  get_ids_where collection d = []
  <-> forall id e, collection !! id = Some e -> document_id (metadata e) <> d.
Proof.
  split.
  - intros Hnil id e He Hd.
    assert (Hin : id ∈ get_ids_where collection d)
      by (apply elem_of_get_ids_where; eauto).
    rewrite Hnil in Hin. inversion Hin.
  - intros Hnone. destruct (get_ids_where collection d) as [|a ids] eqn:E;
      [reflexivity | exfalso].
    assert (Ha : a ∈ get_ids_where collection d) by (rewrite E; left).
    apply elem_of_get_ids_where in Ha as (e & He & Hd).
    exact (Hnone a e He Hd).
Qed.

Lemma delete_document_repeat collection d :
  VectorStore.delete_document (snd (VectorStore.delete_document collection d)) d
  = (0%Z, snd (VectorStore.delete_document collection d)).
Proof.
  set (c' := snd (VectorStore.delete_document collection d)).
  assert (Hnil : get_ids_where c' d = []).
  { apply get_ids_where_nil. intros id e He.
    subst c'. apply delete_document_lookup in He. tauto. }
  unfold VectorStore.delete_document at 1. fold c'. rewrite Hnil. reflexivity.
Qed.

(** X16: the delete route answers 404 "Document with ID ... not found",
    leaving the collection untouched, exactly when no stored chunk carries
    the document id; otherwise it reports success with the number of
    chunks deleted, and the collection is the one [delete_document]
    leaves; a second delete of the same id always answers 404. *)
Theorem delete_route_outcomes collection d :
  ((forall id e, collection !! id = Some e -> document_id (metadata e) <> d) ->
   DocumentsRoute.delete_document collection d
   = (Raise (HTTPException 404
               (lit "Document with ID " ++ d ++ lit " not found")),
      collection))
  /\ ((exists id e, collection !! id = Some e /\ document_id (metadata e) = d) ->
      exists n : Z,
        (0 < n)%Z
        /\ VectorStore.delete_document collection d
           = (n, snd (VectorStore.delete_document collection d))
        /\ DocumentsRoute.delete_document collection d
           = (Ok {| DocumentsRoute.response_document_id := d;
                    DocumentsRoute.message :=
                      lit "Successfully deleted document and "
                      ++ str_of_int n ++ lit " chunks";
                    DocumentsRoute.success := true |},
              snd (VectorStore.delete_document collection d)))
  /\ fst (DocumentsRoute.delete_document
            (snd (DocumentsRoute.delete_document collection d)) d)
     = Raise (HTTPException 404
                (lit "Document with ID " ++ d ++ lit " not found")).
Proof.
  assert (Hsnd : snd (DocumentsRoute.delete_document collection d)
                 = snd (VectorStore.delete_document collection d)).
  { unfold DocumentsRoute.delete_document.
    destruct (VectorStore.delete_document collection d) as [n c'].
    destruct (n =? 0)%Z; reflexivity. }
  split; [|split].
  - intros Hnone. apply get_ids_where_nil in Hnone.
    unfold DocumentsRoute.delete_document, VectorStore.delete_document.
    rewrite Hnone. reflexivity.
  - intros (id & e & He & Hd).
    destruct (get_ids_where collection d) as [|a ids] eqn:E.
    { exfalso. exact (proj1 (get_ids_where_nil collection d) E id e He Hd). }
    exists (Z.of_nat (length (a :: ids))). split; [simpl; lia|].
    rewrite delete_document_unfold, E. split; [reflexivity|].
    unfold DocumentsRoute.delete_document.
    rewrite delete_document_unfold, E.
    destruct (Z.eqb_spec (Z.of_nat (length (a :: ids))) 0) as [H0|_];
      [simpl in H0; lia | reflexivity].
  - rewrite Hsnd. unfold DocumentsRoute.delete_document.
    rewrite delete_document_repeat. reflexivity.
Qed.

Lemma delete_route_outcomes_witness :
  DocumentsRoute.delete_document Sample.collection (lit "D3")
  = (Raise (HTTPException 404
              (lit "Document with ID " ++ lit "D3" ++ lit " not found")),
     Sample.collection)
  /\ exists n : Z,
       (0 < n)%Z
       /\ fst (DocumentsRoute.delete_document Sample.collection (lit "D1"))
          = Ok {| DocumentsRoute.response_document_id := lit "D1";
                  DocumentsRoute.message :=
                    lit "Successfully deleted document and "
                    ++ str_of_int n ++ lit " chunks";
                  DocumentsRoute.success := true |}.
Proof.
  split.
  - apply (proj1 (delete_route_outcomes Sample.collection (lit "D3"))).
    refine (bool_decide_unpack
              (map_Forall (fun _ e => document_id (metadata e) <> lit "D3")
                 Sample.collection) _).
    vm_compute. exact I.
  - destruct (proj1 (proj2 (delete_route_outcomes Sample.collection (lit "D1"))))
      as (n & Hn & _ & Hroute).
    + exists (lit "D1_chunk_0"), (Sample.entry_of (lit "D1") (lit "A. B") 0 2).
      split; [vm_compute; reflexivity | reflexivity].
    + exists n. split; [exact Hn|]. rewrite Hroute. reflexivity.
Defined.

Lemma query_documents_no_chunks (services : Services) (rag : RAGPipeline.t)
      collection (request : QueryRequest) :
  get_chunk_count collection = 0%Z ->
  query_documents services rag collection request
  = Raise (HTTPException 400 no_documents_detail).
Proof.
  intros Hzero. unfold query_documents, query_body. rewrite Hzero. reflexivity.
Qed.

(** X17: once the delete route has removed a document that all stored
    chunks belonged to, every query is answered with the 400 "No documents
    have been indexed yet" error. *)
Theorem query_after_last_document_deleted (services : Services)
        (rag : RAGPipeline.t) collection d (request : QueryRequest) :
  (forall id e, collection !! id = Some e -> document_id (metadata e) = d) ->
  query_documents services rag
    (snd (DocumentsRoute.delete_document collection d)) request
  = Raise (HTTPException 400 no_documents_detail).
Proof.
  intros Hall. apply query_documents_no_chunks.
  assert (Hsnd : snd (DocumentsRoute.delete_document collection d)
                 = snd (VectorStore.delete_document collection d)).
  { unfold DocumentsRoute.delete_document.
    destruct (VectorStore.delete_document collection d) as [n c'].
    destruct (n =? 0)%Z; reflexivity. }
  rewrite Hsnd. unfold get_chunk_count.
  replace (snd (VectorStore.delete_document collection d))
    with (∅ : gmap (list N) Entry); [reflexivity|].
  symmetry. apply map_empty. intros id.
  destruct (snd (VectorStore.delete_document collection d) !! id) as [e|] eqn:E;
    [exfalso | reflexivity].
  apply delete_document_lookup in E as [He Hne]. exact (Hne (Hall id e He)).
Qed.

Lemma query_after_last_document_deleted_witness :
  query_documents Sample.services Sample.pipeline_up
    (snd (DocumentsRoute.delete_document
            {[ lit "D2_chunk_0" := Sample.entry_of (lit "D2") (lit "C.") 0 1 ]}
            (lit "D2")))
    Sample.request
  = Raise (HTTPException 400 no_documents_detail).
Proof.
  apply (query_after_last_document_deleted Sample.services Sample.pipeline_up
           {[ lit "D2_chunk_0" := Sample.entry_of (lit "D2") (lit "C.") 0 1 ]}
           (lit "D2") Sample.request).
  intros id e He. apply lookup_singleton_Some in He as [_ <-]. reflexivity.
Defined.

End Routes.

Section QueryOutcomes.

Import VectorStore RAGPipeline QueryRoute.

Implicit Types (collection : gmap (list N) Entry).

Lemma generate_response_fields (self : RAGPipeline.t) (now q : str)
      (search_results : SearchResults) r :
  generate_response self now q search_results = Ok r ->
  query r = q /\ timestamp r = now.
Proof.
  unfold generate_response.
  destruct (_build_context search_results) as [context|e];
    [rewrite result_bind_ok | discriminate].
  destruct (extract_sources search_results) as [srcs|e];
    [rewrite result_bind_ok | discriminate].
  intros [= <-]. auto.
Qed.

Lemma validate_response_ok (r r' : Response) :
  validate_response r = Ok r' ->
  r' = r
  /\ forall s, In s (sources r) ->
       SFleb Float64.zero (relevance_score s) = true
       /\ SFleb (relevance_score s) Float64.one = true.
Proof.
  unfold validate_response.
  destruct (forallb _ (sources r)) eqn:E; [|discriminate].
  intros [= <-]. split; [reflexivity|].
  intros s Hs. rewrite forallb_forall in E. specialize (E s Hs).
  apply andb_true_iff in E as [E1 E2]. auto.
Qed.

(** X18: [query_documents] raises nothing but [HTTPException]; a response
    it returns is for a non-empty index, repeats the query of the request,
    carries the current time, and every relevance score in it lies between
    0.0 and 1.0, whatever distances the index reported. *)
Theorem query_documents_outcomes (services : Services) (rag : RAGPipeline.t)
        collection (request : QueryRequest) :
  match query_documents services rag collection request with
  | Ok r =>
      get_chunk_count collection <> 0%Z
      /\ query r = request_query request
      /\ timestamp r = now services
      /\ forall s, In s (sources r) ->
           SFleb Float64.zero (relevance_score s) = true
           /\ SFleb (relevance_score s) Float64.one = true
  | Raise e => exists code detail, e = HTTPException code detail
  end.
Proof.
  unfold query_documents.
  destruct (query_body services rag collection request) as [r|e] eqn:E;
    [|destruct e; eauto].
  unfold query_body in E.
  destruct (Z.eqb_spec (get_chunk_count collection) 0) as [|Hne];
    [discriminate|].
  split; [exact Hne|].
  destruct (generate_embedding services (request_query request)) as [emb|e];
    [rewrite result_bind_ok in E | discriminate].
  destruct (search services collection emb _) as [sr|e];
    [rewrite result_bind_ok in E | discriminate].
  destruct (generate_response rag (now services) (request_query request) sr)
    as [rd|e] eqn:Hrd; [rewrite result_bind_ok in E | discriminate].
  apply validate_response_ok in E as [-> Hscores].
  apply generate_response_fields in Hrd as [Hq Ht]. auto.
Qed.

(** X19: on a non-empty index, a failure of the embedding service, or of
    the search once the embedding is there, that is not itself an
    [HTTPException] is answered with status 500 and the detail
    "Failed to process query: " followed by the error message; an
    [HTTPException] raised by either passes through unchanged. *)
Theorem query_documents_wraps_failures (services : Services)
        (rag : RAGPipeline.t) collection (request : QueryRequest) (e : exn) :
  get_chunk_count collection <> 0%Z ->
  generate_embedding services (request_query request) = Raise e
  \/ (exists emb,
        generate_embedding services (request_query request) = Ok emb
        /\ search services collection emb
             (match top_k request with
              | Some n => if (n =? 0)%Z then top_k_results services else n
              | None => top_k_results services
              end) = Raise e) ->
  query_documents services rag collection request
  = match e with
    | HTTPException code detail => Raise (HTTPException code detail)
    | _ => Raise (HTTPException 500
                    (lit "Failed to process query: " ++ str_of_exn e))
    end.
Proof.
  intros Hne Hfail. unfold query_documents, query_body.
  destruct (Z.eqb_spec (get_chunk_count collection) 0); [contradiction|].
  destruct Hfail as [He|(emb & Hemb & He)].
  - rewrite He. destruct e; reflexivity.
  - rewrite Hemb, result_bind_ok, He. destruct e; reflexivity.
Qed.

Lemma query_documents_wraps_failures_witness :
  query_documents
    {| generate_embedding := fun _ => Raise (ExternalError (lit "model not loaded"));
       search := search Sample.services;
       now := now Sample.services;
       top_k_results := 3 |}
    Sample.pipeline_up Sample.collection Sample.request
  = Raise (HTTPException 500
             (lit "Failed to process query: " ++ lit "model not loaded")).
Proof.
  apply (query_documents_wraps_failures
           {| generate_embedding :=
                fun _ => Raise (ExternalError (lit "model not loaded"));
              search := search Sample.services;
              now := now Sample.services;
              top_k_results := 3 |}
           Sample.pipeline_up Sample.collection Sample.request
           (ExternalError (lit "model not loaded")));
    [vm_compute; discriminate | left; reflexivity].
Defined.

(** X20: when the index reports as distance of a retrieved chunk a double
    that is -0.001 or less (on a non-empty index, with embedding and search
    succeeding and one row per key), the score computed for it exceeds
    1.0, the response model rejects it and the query is answered with
    status 500. *)
Theorem query_documents_negative_distance (services : Services)
        (rag : RAGPipeline.t) collection (request : QueryRequest)
        (emb : list Float64.float) (docs : list str) (mds : list Metadata)
        (dists : list Float64.float) (k : nat) doc md distance :
  get_chunk_count collection <> 0%Z ->
  generate_embedding services (request_query request) = Ok emb ->
  search services collection emb
    (match top_k request with
     | Some n => if (n =? 0)%Z then top_k_results services else n
     | None => top_k_results services
     end)
  = Ok {| documents := [docs]; metadatas := [mds]; distances := Some [dists] |} ->
  docs !! k = Some doc -> mds !! k = Some md -> dists !! k = Some distance ->
  Float64.is_double distance = true ->
  SFleb distance (Float64.of_decimal true 1 1000) = true ->
  exists detail,
    query_documents services rag collection request
    = Raise (HTTPException 500 (lit "Failed to process query: " ++ detail)).
Proof.
  intros Hne Hemb Hsearch Hd Hm Hdist Hvalid Hneg.
  set (sr := {| documents := [docs]; metadatas := [mds];
                distances := Some [dists] |}) in *.
  destruct (build_context_one_row sr eq_refl) as [context Hc].
  assert (Hs : extract_sources sr
               = Ok (List.map (fun '(doc, (md, distance)) =>
                                 source_of doc md distance)
                       (zip docs (zip mds dists)))).
  { subst sr. destruct docs as [|doc0 docs']; [discriminate Hd | reflexivity]. }
  destruct (generate_response_ok rag (now services) (request_query request)
              sr context _ Hc Hs) as [a Hr].
  unfold query_documents, query_body.
  destruct (Z.eqb_spec (get_chunk_count collection) 0); [contradiction|].
  rewrite Hemb, result_bind_ok, Hsearch, result_bind_ok, Hr, result_bind_ok.
  unfold validate_response. cbn [sources].
  destruct (forallb _ _) eqn:E.
  - exfalso. rewrite forallb_forall in E.
    assert (Hin : In (source_of doc md distance)
                     (List.map (fun '(doc, (md, distance)) =>
                                  source_of doc md distance)
                        (zip docs (zip mds dists)))).
    { apply in_map_iff. exists (doc, (md, distance)). split; [reflexivity|].
      apply list_elem_of_In, list_elem_of_lookup. exists k.
      apply zip_lookup. split; [exact Hd|]. apply zip_lookup. auto. }
    specialize (E _ Hin). cbn [relevance_score source_of] in E.
    rewrite (score_above distance Hvalid Hneg) in E.
    rewrite andb_false_r in E. discriminate.
  - eexists. reflexivity.
Qed.

End QueryOutcomes.

Section MoreWitnesses.

Import VectorStore RAGPipeline QueryRoute Index.

Lemma list_documents_one_per_document_witness :
  exists id e,
    Sample.collection !! id = Some e
    /\ {| info_document_id := lit "D2"; info_filename := lit "D2.txt";
          info_upload_time := lit "2024-01-01T00:00:00";
          info_chunk_count := 1 |} = info_of (metadata e).
Proof.
  apply (proj2 (proj2 (list_documents_one_per_document Sample.collection))).
  vm_compute. auto.
Defined.

Lemma query_documents_outcomes_witness :
  exists r,
    query_documents
      {| generate_embedding := fun _ => Ok [];
         search := fun _ _ _ => Ok Sample.results;
         now := lit "now"; top_k_results := 3 |}
      Sample.pipeline_up Sample.collection Sample.request = Ok r
    /\ forall s, In s (sources r) ->
         SFleb Float64.zero (relevance_score s) = true
         /\ SFleb (relevance_score s) Float64.one = true.
Proof.
  pose proof (query_documents_outcomes
                {| generate_embedding := fun _ => Ok [];
                   search := fun _ _ _ => Ok Sample.results;
                   now := lit "now"; top_k_results := 3 |}
                Sample.pipeline_up Sample.collection Sample.request) as H.
  destruct (query_documents _ _ _ _) as [r|e] eqn:E.
  - exists r. split; [reflexivity | apply H].
  - exfalso. vm_compute in E. discriminate E.
Defined.

Lemma query_documents_negative_distance_witness :
  exists detail,
    query_documents
      {| generate_embedding := fun _ => Ok [];
         search := fun _ _ _ =>
           Ok {| documents := [[lit "A. B"]];
                 metadatas := [[Sample.metadata_of (lit "D1") 0 2]];
                 distances := Some [[Float64.of_decimal true 1 100]] |};
         now := lit "now"; top_k_results := 3 |}
      Sample.pipeline_up Sample.collection Sample.request
    = Raise (HTTPException 500 (lit "Failed to process query: " ++ detail)).
Proof.
  apply (query_documents_negative_distance
           {| generate_embedding := fun _ => Ok [];
              search := fun _ _ _ =>
                Ok {| documents := [[lit "A. B"]];
                      metadatas := [[Sample.metadata_of (lit "D1") 0 2]];
                      distances := Some [[Float64.of_decimal true 1 100]] |};
              now := lit "now"; top_k_results := 3 |}
           Sample.pipeline_up Sample.collection Sample.request
           [] [lit "A. B"] [Sample.metadata_of (lit "D1") 0 2]
           [Float64.of_decimal true 1 100] 0%nat (lit "A. B")
           (Sample.metadata_of (lit "D1") 0 2) (Float64.of_decimal true 1 100));
    try reflexivity.
  vm_compute. discriminate.
Defined.

(** X21: if one model in the backend's list has no name, the availability
    check returns false, whatever the other names are. *)
Theorem check_ollama_available_nameless_entry (self : RAGPipeline.t)
        (entries : list ModelEntry) :
  client_list (client self) = Ok {| models := Some entries |} ->
  (exists m, In m entries /\ name m = None) ->
  check_ollama_available self = false.
Proof.
  intros Hl (m & Hin & Hm). unfold check_ollama_available.
  rewrite Hl, result_bind_ok.
  change (default [] (models {| models := Some entries |})) with entries.
  assert (Hraise : exists e, model_names entries = Raise e).
  { clear Hl. induction entries as [|m0 entries IH]; [destruct Hin|].
    cbn [model_names]. unfold entry_name.
    destruct Hin as [->|Hin].
    - rewrite Hm. eexists. reflexivity.
    - destruct (name m0); [|eexists; reflexivity].
      rewrite result_bind_ok. destruct (IH Hin) as [e ->].
      eexists. reflexivity. }
  destruct Hraise as [e ->]. reflexivity.
Qed.

Lemma check_ollama_available_nameless_entry_witness :
  check_ollama_available
    {| model_name := lit "llama3.2";
       client := {| client_generate := fun _ _ _ => Ok [];
                    client_list :=
                      Ok {| models := Some [{| name := Some (lit "llama3.2") |};
                                            {| name := None |}] |} |} |}
  = false.
Proof.
  apply (check_ollama_available_nameless_entry
           {| model_name := lit "llama3.2";
              client := {| client_generate := fun _ _ _ => Ok [];
                           client_list :=
                             Ok {| models := Some [{| name := Some (lit "llama3.2") |};
                                                   {| name := None |}] |} |} |}
           [{| name := Some (lit "llama3.2") |}; {| name := None |}]);
    [reflexivity|].
  exists {| name := None |}. split; [right; left; reflexivity | reflexivity].
Defined.

End MoreWitnesses.

Section ExtensionCheck.

Import Extraction.

(** X22: the upload check and the extraction dispatch agree on
    extensions: a path [validate_file_extension] accepts is handed to the
    PDF or the text extractor, and a path it rejects makes [extract_text]
    raise "Unsupported file format: " followed by the extension. *)
Theorem validate_file_extension_agrees (files : Files) (path : str) :
  (validate_file_extension files path = true ->
   extract_text files path = _extract_from_pdf files path
   \/ extract_text files path = _extract_from_text files path)
  /\ (validate_file_extension files path = false ->
      extract_text files path
      = Raise (ValueError (lit "Unsupported file format: "
                             ++ snd (splitext files (lower files path))))).
Proof.
  unfold validate_file_extension, extract_text, ALLOWED_EXTENSIONS.
  set (ext := snd (splitext files (lower files path))).
  destruct (bool_decide_reflect (ext = lit ".pdf")) as [Hpdf|Hpdf];
    destruct (bool_decide_reflect (ext ∈ [lit ".txt"; lit ".md"])) as [Htxt|Htxt];
    destruct (bool_decide_reflect (ext ∈ [lit ".txt"; lit ".md"; lit ".pdf"]))
      as [Hall|Hall];
    split; intros H; try discriminate H; auto.
  - exfalso. apply Hall. rewrite Hpdf. do 2 right. left.
  - exfalso. apply Hall. rewrite Hpdf. do 2 right. left.
  - exfalso. apply Hall.
    apply elem_of_cons in Htxt as [->|Htxt]; [left|].
    apply list_elem_of_singleton in Htxt as ->. right. left.
  - exfalso. apply elem_of_cons in Hall as [->|Hall]; [apply Htxt; left|].
    apply elem_of_cons in Hall as [->|Hall]; [apply Htxt; right; left|].
    apply list_elem_of_singleton in Hall. contradiction.
Qed.

Lemma validate_file_extension_agrees_witness :
  extract_text SampleFiles.files (lit "uploads/d1.exe")
  = Raise (ValueError (lit "Unsupported file format: " ++ lit ".exe")).
Proof.
  apply (proj2 (validate_file_extension_agrees SampleFiles.files
                  (lit "uploads/d1.exe"))).
  vm_compute. reflexivity.
Defined.

End ExtensionCheck.
